(** * Ara + Gemmini benchmark kernels: a shallow embedding

    Embedding of the C benchmark drivers
    [ara_gemmini_compare.c] and [ara_gemmini_scalar_compare.c]:
    the workload generators, the scalar reference kernels, the
    vector-engine SAXPY loop, the Gemmini command sequence of each phase,
    the verification loops and the exit-code aggregation of [main].

    Conventions.
    - Integers are [Z]; C conversions are written out: [to_int8] and
      [to_int32] are the two's complement truncations of the target,
      [to_size] is [size_t] (unsigned 64-bit) wrap-around.
    - A flat [int32_t] buffer lives in a shared store [mem : Z -> Z]
      indexed by element address, so two pointers may alias.
    - An [elem_t[DIM][DIM]] matrix is a function [nat -> nat -> Z].
    - A C [for (i = i0; i < i0 + n; i++) body] is [for_loop n body i0]. *)

From Stdlib Require Import ZArith Lia List Bool.
Import ListNotations.
Open Scope Z_scope.

(** ** Machine integers *)

(** Two's complement truncation to [w] bits, as a cast to a signed
    [w]-bit type behaves on the RISC-V target. *)
Definition wrap_s (w : Z) (z : Z) : Z :=
  let m := z mod 2 ^ w in
  if m <? 2 ^ (w - 1) then m else m - 2 ^ w.

Definition to_int8 (z : Z) : Z := wrap_s 8 z.
Definition to_int32 (z : Z) : Z := wrap_s 32 z.

(** [size_t] arithmetic: unsigned 64-bit, modulo [2^64]. *)
Definition to_size (z : Z) : Z := z mod 2 ^ 64.

(** ** Loops and stores *)

(** [for (size_t i = i0; i < i0 + n; i++) s = body(i, s);] *)
Fixpoint for_loop {A : Type} (n : nat) (body : nat -> A -> A) (i : nat) (s : A) : A :=
  match n with
  | O => s
  | S n' => for_loop n' body (S i) (body i s)
  end.

(** The shared store of [int32_t] cells, addressed by element. *)
Definition mem := Z -> Z.

Definition store (m : mem) (a : Z) (v : Z) : mem :=
  fun a' => if Z.eqb a' a then v else m a'.

(** An [elem_t mat[DIM][DIM]] matrix. *)
Definition mat8 := nat -> nat -> Z.

Definition store8 (c : mat8) (i j : nat) (v : Z) : mat8 :=
  fun i' j' => if Nat.eqb i' i && Nat.eqb j' j then v else c i' j'.

Section Kernels.

(** [DIM], the Gemmini mesh dimension, from [gemmini_params.h]. *)
Variable DIM : nat.

(** ** Workload generators *)

(** [init_matrix_int8]: [mat[i][j] = ((seed + i * DIM + j) % 16) - 8;]
    The expression is evaluated in [size_t] ([seed] is a [uint32_t],
    [i], [j] are [size_t]), then converted to [elem_t] ([int8_t]). *)
Definition init_matrix_int8 (mat : mat8) (seed : Z) : mat8 :=
  for_loop DIM (fun i mat =>
    for_loop DIM (fun j mat =>
      store8 mat i j
        (to_int8 (to_size
          (to_size (to_size (seed + to_size (Z.of_nat i * Z.of_nat DIM)) + Z.of_nat j)
             mod 16 - 8)))) 0 mat) 0 mat.

(** [zero_matrix_int8]: [mat[i][j] = 0;] for every cell. *)
Definition zero_matrix_int8 (mat : mat8) : mat8 :=
  for_loop DIM (fun i mat => for_loop DIM (fun j mat => store8 mat i j 0) 0 mat) 0 mat.

(** ** Narrow scalar matrix multiply *)

(** The inner [k] loop: [sum += (int32_t)A[i][k] * (int32_t)B[k][j];]
    in [int32_t]. *)
Definition matmul_int8_sum (A B : mat8) (i j : nat) : Z :=
  for_loop DIM (fun k sum => to_int32 (sum + to_int32 (A i k * B k j))) 0 0.

(** [scalar_matmul_int8]: after the [k] loop,
    [if (sum > 127) sum = 127; if (sum < -128) sum = -128;
     C[i][j] = (elem_t)sum;] *)
Definition scalar_matmul_int8 (A B C : mat8) : mat8 :=
  for_loop DIM (fun i C =>
    for_loop DIM (fun j C =>
      let sum := matmul_int8_sum A B i j in
      let sum := if sum >? 127 then 127 else sum in
      let sum := if sum <? -128 then -128 else sum in
      store8 C i j (to_int8 sum)) 0 C) 0 C.

End Kernels.

(** ** Scalar SAXPY *)

(** [scalar_saxpy]: [y[i] = a * x[i] + y[i];] for [i < n], in [int32_t]
    arithmetic as compiled for RV64 ([mulw]/[addw], modulo [2^32]). *)
Definition scalar_saxpy (a x y : Z) (n : nat) (m : mem) : mem :=
  for_loop n (fun i m =>
    store m (y + Z.of_nat i)
      (to_int32 (to_int32 (a * m (x + Z.of_nat i)) + m (y + Z.of_nat i)))) 0 m.

(** [scalar_matmul_int32]: [int64_t] accumulation of [(int64_t)A * (int64_t)B],
    stored as [(int32_t)sum] at [C[i * N + j]]. *)
Definition scalar_matmul_int32 (A B C : Z) (N : nat) (m : mem) : mem :=
  for_loop N (fun i m =>
    for_loop N (fun j m =>
      let sum := for_loop N (fun k sum =>
        wrap_s 64 (sum + wrap_s 64 (m (A + Z.of_nat (i * N + k)) * m (B + Z.of_nat (k * N + j)))))
        0 0 in
      store m (C + Z.of_nat (i * N + j)) (to_int32 sum)) 0 m) 0 m.

(** ** Ara vector SAXPY (RVV 1.0, [e32], [m1]) *)

(** [vsetvli vl, n, e32, m1, ta, ma]: Ara grants [min(n, VLMAX)]. *)
Definition vsetvli (VLMAX avl : nat) : nat := Nat.min avl VLMAX.

(** A vector register, by element index; lanes at and past [vl] are
    tail-agnostic and never stored. *)
Definition vreg := nat -> Z.

(** [vle32.v vd, (base)] *)
Definition vle32 (m : mem) (base : Z) : vreg := fun k => m (base + Z.of_nat k).

(** [vmul.vx vd, vs2, rs1]: low 32 bits of [vs2[k] * rs1]. *)
Definition vmul_vx (vs2 : vreg) (rs1 : Z) : vreg := fun k => to_int32 (vs2 k * rs1).

(** [vadd.vv vd, vs2, vs1]: low 32 bits of [vs2[k] + vs1[k]]. *)
Definition vadd_vv (vs2 vs1 : vreg) : vreg := fun k => to_int32 (vs2 k + vs1 k).

(** [vse32.v vs3, (base)] with [vl] active elements. *)
Definition vse32 (m : mem) (base : Z) (vl : nat) (vs3 : vreg) : mem :=
  for_loop vl (fun k m => store m (base + Z.of_nat k) (vs3 k)) 0 m.

(** The [while (n > 0)] loop of [ara_vector_saxpy]; [fuel] bounds the
    number of iterations (each one retires at least one element when
    [VLMAX > 0], so [n] iterations suffice). *)
Fixpoint ara_loop (VLMAX : nat) (fuel : nat) (a x y : Z) (n : nat) (m : mem) : mem :=
  match fuel with
  | O => m
  | S fuel' =>
      if Nat.ltb 0 n then
        let vl := vsetvli VLMAX n in
        let v1 := vle32 m x in
        let v2 := vle32 m y in
        let v3 := vmul_vx v1 a in
        let v2 := vadd_vv v3 v2 in
        let m := vse32 m y vl v2 in
        ara_loop VLMAX fuel' a (x + Z.of_nat vl) (y + Z.of_nat vl) (n - vl)%nat m
      else m
  end.

Definition ara_vector_saxpy (VLMAX : nat) (a x y : Z) (n : nat) (m : mem) : mem :=
  ara_loop VLMAX n a x y n m.

(** [init_matrix_int32]: [mat[i] = ((seed + i) % 64) - 32;] in [size_t],
    converted to [int32_t]. *)
Definition init_matrix_int32 (mat : Z) (size : nat) (seed : Z) (m : mem) : mem :=
  for_loop size (fun i m =>
    store m (mat + Z.of_nat i)
      (to_int32 (to_size (to_size (seed + Z.of_nat i) mod 64 - 32)))) 0 m.

(** [init_vector_int32]: [vec[i] = ((seed + i) % 100) - 50;] in [size_t],
    converted to [int32_t]. *)
Definition init_vector_int32 (vec : Z) (len : nat) (seed : Z) (m : mem) : mem :=
  for_loop len (fun i m =>
    store m (vec + Z.of_nat i)
      (to_int32 (to_size (to_size (seed + Z.of_nat i) mod 100 - 50)))) 0 m.

(** ** Verification loops *)

(** A line printed for a mismatch: coordinates, got, expected. *)
Definition mismatch_line := (nat * nat * Z * Z)%type.

(** Inner loop of the Gemmini check:
    [for (j = 0; j < DIM && errors < 5; j++)] with
    [diff = (int)C[i][j] - (int)ref[i][j]; if (diff < -1 || diff > 1) {printf; errors++;}] *)
Fixpoint verify_row (Cg Cref : mat8) (n i j : nat) (st : Z * list mismatch_line)
  : Z * list mismatch_line :=
  match n with
  | O => st
  | S n' =>
      let (errors, out) := st in
      if errors <? 5 then
        let diff := Cg i j - Cref i j in
        let st' := if (diff <? -1) || (diff >? 1)
                   then (errors + 1, out ++ [(i, j, Cg i j, Cref i j)])
                   else (errors, out) in
        verify_row Cg Cref n' i (S j) st'
      else st
  end.

(** Outer loop: [for (i = 0; i < DIM && errors < 5; i++)]. *)
Fixpoint verify_rows (Cg Cref : mat8) (dim n i : nat) (st : Z * list mismatch_line)
  : Z * list mismatch_line :=
  match n with
  | O => st
  | S n' =>
      if fst st <? 5 then verify_rows Cg Cref dim n' (S i) (verify_row Cg Cref dim i 0 st)
      else st
  end.

(** The check of [test_gemmini_matmul] / [test_gemmini_performance],
    starting from [int errors = 0;]: the final [errors] and the printed lines. *)
Definition verify_gemmini (DIM : nat) (Cg Cref : mat8) : Z * list mismatch_line :=
  verify_rows Cg Cref DIM DIM 0 (0, []).

(** The check of [test_ara_performance]:
    [for (i = 0; i < VEC_LEN && errors < 5; i++) if (vec_y[i] != vec_ref[i]) {printf; errors++;}] *)
Fixpoint verify_vec (vy vref : nat -> Z) (n i : nat) (st : Z * list (nat * Z * Z))
  : Z * list (nat * Z * Z) :=
  match n with
  | O => st
  | S n' =>
      let (errors, out) := st in
      if errors <? 5 then
        let st' := if negb (vy i =? vref i)
                   then (errors + 1, out ++ [(i, vy i, vref i)])
                   else (errors, out) in
        verify_vec vy vref n' (S i) st'
      else st
  end.

(** ** Derived metrics *)

(** Unsigned 64-bit division as the C source writes it: a zero divisor
    is a division by zero (undefined in C), otherwise the quotient. *)
Inductive div_result := Quot (q : Z) | DivByZero.

Definition udiv64 (a b : Z) : div_result :=
  if b =? 0 then DivByZero else Quot (a / b).

(** [ara_gemmini_compare.c], [test_performance_comparison]:
    [uint64_t speedup = scalar_cycles / gemmini_cycles;] *)
Definition compare_speedup (scalar_cycles gemmini_cycles : Z) : div_result :=
  udiv64 scalar_cycles gemmini_cycles.

(** [ara_gemmini_scalar_compare.c], [test_comparison]: the three printed
    quotients: [scalar_saxpy_cycles / ara_saxpy_cycles],
    [(scalar_saxpy_cycles * 10 / ara_saxpy_cycles) % 10] and
    [scalar_matmul_cycles / gemmini_matmul_cycles]. *)
Definition comparison_speedups (scalar_saxpy_cycles ara_saxpy_cycles
    scalar_matmul_cycles gemmini_matmul_cycles : Z)
  : div_result * div_result * div_result :=
  (udiv64 scalar_saxpy_cycles ara_saxpy_cycles,
   match udiv64 (to_size (scalar_saxpy_cycles * 10)) ara_saxpy_cycles with
   | Quot q => Quot (q mod 10)
   | DivByZero => DivByZero
   end,
   udiv64 scalar_matmul_cycles gemmini_matmul_cycles).

(** ** Gemmini commands *)

Inductive dataflow := OUTPUT_STATIONARY | WEIGHT_STATIONARY.

(** The static [elem_t] buffers a command reads or writes. *)
Inductive gbuffer := Buf_gemmini_A | Buf_gemmini_B | Buf_gemmini_C.

(** The [gemmini_*] calls of [gemmini_testutils.h] a phase issues. *)
Inductive gemmini_op :=
  | Flush (skip : Z)
  | Config_ld (stride : Z)
  | Config_st (stride : Z)
  | Mvin (src : gbuffer) (sp_addr : Z)
  | Config_ex (mode : dataflow) (act shift : Z)
  | Preload_zeros (sp_addr : Z)
  | Compute_preloaded (a_sp b_sp : Z)
  | Mvout (dst : gbuffer) (sp_addr : Z)
  | Fence.

(** [sizeof(elem_t)] ([int8_t]). *)
Definition sizeof_elem_t : Z := 1.

(** ** Static data *)

Definition TEST_DIM : nat := 16.
Definition VEC_LEN : nat := 256.
Definition MAT_SIZE : nat := TEST_DIM * TEST_DIM.

(** Base addresses of the static [int32_t] arrays in the store
    (distinct objects, so the ranges do not overlap). *)
Definition scalar_A : Z := 0.
Definition scalar_B : Z := 256.
Definition scalar_C : Z := 512.
Definition vec_x : Z := 1024.
Definition vec_y : Z := 1280.
Definition vec_result : Z := 1536.
Definition vec_ref : Z := 1792.

(** The static [elem_t] matrices. *)
Record gstate := mk_gstate {
  gemmini_A : mat8; gemmini_B : mat8; gemmini_C : mat8; gemmini_ref : mat8 }.

(** What the accelerator leaves in [gemmini_C] after mvout and fence,
    given the operands moved in: the accelerator is a black box. *)
Definition gemmini_hw := mat8 -> mat8 -> mat8.

(** The Ara unit running [ara_vector_saxpy a x y n]: a store transformer.
    [ara_vector_saxpy VLMAX] above is the embedding of the RVV loop. *)
Definition ara_impl := Z -> Z -> Z -> nat -> mem -> mem.

(** What a test phase leaves: its return value, the Gemmini commands it
    issued in order, its [errors] counter (0 where it has none), the
    mismatch lines it printed, and the static data. *)
Record phase_out := mk_phase_out {
  ret : Z;
  accel_ops : list gemmini_op;
  errors : Z;
  printed : list mismatch_line;
  mem_out : mem;
  g_out : gstate }.

(** ** [ara_gemmini_compare.c] *)

(** [test_scalar_matmul] *)
Definition test_scalar_matmul (m : mem) (s : gstate) : phase_out :=
  let m := init_matrix_int32 scalar_A MAT_SIZE 0xABCD m in
  let m := init_matrix_int32 scalar_B MAT_SIZE 0x1234 m in
  let m := for_loop MAT_SIZE (fun i m => store m (scalar_C + Z.of_nat i) 0) 0 m in
  let m := scalar_matmul_int32 scalar_A scalar_B scalar_C TEST_DIM m in
  mk_phase_out 0 [] 0 [] m s.

(** [test_gemmini_matmul] *)
Definition test_gemmini_matmul (DIM : nat) (hw : gemmini_hw) (m : mem) (s : gstate)
  : phase_out :=
  let gA := init_matrix_int8 DIM (gemmini_A s) 0x5678 in
  let gB := init_matrix_int8 DIM (gemmini_B s) 0x9ABC in
  let gC := zero_matrix_int8 DIM (gemmini_C s) in
  let gref := zero_matrix_int8 DIM (gemmini_ref s) in
  let gref := scalar_matmul_int8 DIM gA gB gref in
  let A_sp_addr := 0 in
  let B_sp_addr := Z.of_nat DIM in
  let C_sp_addr := 2 * Z.of_nat DIM in
  let ops :=
    [Flush 0;
     Config_ld (Z.of_nat DIM * sizeof_elem_t);
     Config_st (Z.of_nat DIM * sizeof_elem_t);
     Mvin Buf_gemmini_A A_sp_addr;
     Mvin Buf_gemmini_B B_sp_addr;
     Config_ex OUTPUT_STATIONARY 0 0;
     Preload_zeros C_sp_addr;
     Compute_preloaded A_sp_addr B_sp_addr;
     Mvout Buf_gemmini_C C_sp_addr;
     Fence] in
  let gC := hw gA gB in
  let (errs, out) := verify_gemmini DIM gC gref in
  (* [if (errors == 0) ... else printf("WARNING ...");
      printf("Gemmini matmul test PASSED\n"); return 0;] *)
  mk_phase_out 0 ops errs out m (mk_gstate gA gB gC gref).

(** [test_performance_comparison]; the cycle deltas are the values the
    counters report. Also returns the speedup it prints. *)
Definition test_performance_comparison (DIM : nat) (hw : gemmini_hw)
    (scalar_cycles gemmini_cycles : Z) (m : mem) (s : gstate)
  : phase_out * div_result :=
  let m := init_matrix_int32 scalar_A MAT_SIZE 0x1111 m in
  let m := init_matrix_int32 scalar_B MAT_SIZE 0x2222 m in
  let m := for_loop MAT_SIZE (fun i m => store m (scalar_C + Z.of_nat i) 0) 0 m in
  let m := scalar_matmul_int32 scalar_A scalar_B scalar_C TEST_DIM m in
  let gA := init_matrix_int8 DIM (gemmini_A s) 0x3333 in
  let gB := init_matrix_int8 DIM (gemmini_B s) 0x4444 in
  let gC := zero_matrix_int8 DIM (gemmini_C s) in
  let A_sp := 0 in
  let B_sp := Z.of_nat DIM in
  let C_sp := 2 * Z.of_nat DIM in
  let ops :=
    [Flush 0;
     Config_ld (Z.of_nat DIM * sizeof_elem_t);
     Config_st (Z.of_nat DIM * sizeof_elem_t);
     Mvin Buf_gemmini_A A_sp;
     Mvin Buf_gemmini_B B_sp;
     Config_ex OUTPUT_STATIONARY 0 0;
     Preload_zeros C_sp;
     Compute_preloaded A_sp B_sp;
     Mvout Buf_gemmini_C C_sp;
     Fence] in
  let gC := hw gA gB in
  let speedup := compare_speedup scalar_cycles gemmini_cycles in
  (mk_phase_out 0 ops 0 [] m (mk_gstate gA gB gC (gemmini_ref s)), speedup).

(** [main] of [ara_gemmini_compare.c]: [result |= test_...();] for the three
    tests in order, then [exit(result)]. *)
Definition main_compare (DIM : nat) (hw : gemmini_hw)
    (scalar_cycles gemmini_cycles : Z) (m : mem) (s : gstate) : Z :=
  let result := 0 in
  let p1 := test_scalar_matmul m s in
  let result := Z.lor result (ret p1) in
  let p2 := test_gemmini_matmul DIM hw (mem_out p1) (g_out p1) in
  let result := Z.lor result (ret p2) in
  let p3 := fst (test_performance_comparison DIM hw scalar_cycles gemmini_cycles
                   (mem_out p2) (g_out p2)) in
  let result := Z.lor result (ret p3) in
  result.

(** ** [ara_gemmini_scalar_compare.c] *)

(** [test_scalar_performance] *)
Definition test_scalar_performance (m : mem) (s : gstate) : phase_out :=
  let m := init_vector_int32 vec_x VEC_LEN 0xABCD m in
  let m := init_vector_int32 vec_y VEC_LEN 0x1234 m in
  let alpha := 3 in
  let m := scalar_saxpy alpha vec_x vec_y VEC_LEN m in
  let m := init_matrix_int32 scalar_A MAT_SIZE 0x5678 m in
  let m := init_matrix_int32 scalar_B MAT_SIZE 0x9ABC m in
  let m := for_loop MAT_SIZE (fun i m => store m (scalar_C + Z.of_nat i) 0) 0 m in
  let m := scalar_matmul_int32 scalar_A scalar_B scalar_C TEST_DIM m in
  mk_phase_out 0 [] 0 [] m s.

(** [test_ara_performance]; [ara] is the vector unit running
    [ara_vector_saxpy]. The vector mismatch lines are not kept. *)
Definition test_ara_performance (ara : ara_impl) (m : mem) (s : gstate) : phase_out :=
  let m := init_vector_int32 vec_x VEC_LEN 0xABCD m in
  let m := init_vector_int32 vec_y VEC_LEN 0x1234 m in
  let alpha := 3 in
  let m := for_loop VEC_LEN (fun i m =>
             store m (vec_ref + Z.of_nat i) (m (vec_y + Z.of_nat i))) 0 m in
  let m := scalar_saxpy alpha vec_x vec_ref VEC_LEN m in
  let m := init_vector_int32 vec_y VEC_LEN 0x1234 m in
  let m := ara alpha vec_x vec_y VEC_LEN m in
  let (errs, _) := verify_vec (fun i => m (vec_y + Z.of_nat i))
                              (fun i => m (vec_ref + Z.of_nat i)) VEC_LEN 0 (0, []) in
  (* [if (errors == 0) {...} else {...; return 1;} ... return 0;] *)
  mk_phase_out (if errs =? 0 then 0 else 1) [] errs [] m s.

(** [test_gemmini_performance] *)
Definition test_gemmini_performance (DIM : nat) (hw : gemmini_hw) (m : mem) (s : gstate)
  : phase_out :=
  let gA := init_matrix_int8 DIM (gemmini_A s) 0x5678 in
  let gB := init_matrix_int8 DIM (gemmini_B s) 0x9ABC in
  let gC := zero_matrix_int8 DIM (gemmini_C s) in
  let gref := zero_matrix_int8 DIM (gemmini_ref s) in
  let gref := scalar_matmul_int8 DIM gA gB gref in
  let A_sp := 0 in
  let B_sp := Z.of_nat DIM in
  let C_sp := 2 * Z.of_nat DIM in
  let ops :=
    [Flush 0;
     Config_ld (Z.of_nat DIM * sizeof_elem_t);
     Config_st (Z.of_nat DIM * sizeof_elem_t);
     Mvin Buf_gemmini_A A_sp;
     Mvin Buf_gemmini_B B_sp;
     Config_ex OUTPUT_STATIONARY 0 0;
     Preload_zeros C_sp;
     Compute_preloaded A_sp B_sp;
     Mvout Buf_gemmini_C C_sp;
     Fence] in
  let gC := hw gA gB in
  let (errs, out) := verify_gemmini DIM gC gref in
  (* [if (errors == 0) printf("  Verification: PASSED\n"); ... return 0;] *)
  mk_phase_out 0 ops errs out m (mk_gstate gA gB gC gref).

(** [test_comparison]; the four cycle deltas are the values the counters
    report. Also returns the three quotients it prints. *)
Definition test_comparison (DIM : nat) (ara : ara_impl) (hw : gemmini_hw)
    (scalar_saxpy_cycles ara_saxpy_cycles scalar_matmul_cycles gemmini_matmul_cycles : Z)
    (m : mem) (s : gstate) : phase_out * (div_result * div_result * div_result) :=
  let m := init_vector_int32 vec_x VEC_LEN 0x1111 m in
  let m := init_vector_int32 vec_y VEC_LEN 0x2222 m in
  let m := scalar_saxpy 5 vec_x vec_y VEC_LEN m in
  let m := init_vector_int32 vec_y VEC_LEN 0x2222 m in
  let m := ara 5 vec_x vec_y VEC_LEN m in
  let m := init_matrix_int32 scalar_A MAT_SIZE 0x3333 m in
  let m := init_matrix_int32 scalar_B MAT_SIZE 0x4444 m in
  let m := for_loop MAT_SIZE (fun i m => store m (scalar_C + Z.of_nat i) 0) 0 m in
  let m := scalar_matmul_int32 scalar_A scalar_B scalar_C TEST_DIM m in
  let gA := init_matrix_int8 DIM (gemmini_A s) 0x5555 in
  let gB := init_matrix_int8 DIM (gemmini_B s) 0x6666 in
  let gC := zero_matrix_int8 DIM (gemmini_C s) in
  let A_sp := 0 in
  let B_sp := Z.of_nat DIM in
  let C_sp := 2 * Z.of_nat DIM in
  let ops :=
    [Flush 0;
     Config_ld (Z.of_nat DIM * sizeof_elem_t);
     Config_st (Z.of_nat DIM * sizeof_elem_t);
     Mvin Buf_gemmini_A A_sp;
     Mvin Buf_gemmini_B B_sp;
     Config_ex OUTPUT_STATIONARY 0 0;
     Preload_zeros C_sp;
     Compute_preloaded A_sp B_sp;
     Mvout Buf_gemmini_C C_sp;
     Fence] in
  let gC := hw gA gB in
  let q := comparison_speedups scalar_saxpy_cycles ara_saxpy_cycles
             scalar_matmul_cycles gemmini_matmul_cycles in
  (mk_phase_out 0 ops 0 [] m (mk_gstate gA gB gC (gemmini_ref s)), q).

(** The four cycle deltas [test_comparison] measures. *)
Record comparison_cycles := mk_cycles {
  cyc_scalar_saxpy : Z; cyc_ara_saxpy : Z; cyc_scalar_matmul : Z; cyc_gemmini_matmul : Z }.

(** [main] of [ara_gemmini_scalar_compare.c]. *)
Definition main_scalar_compare (DIM : nat) (ara : ara_impl) (hw : gemmini_hw)
    (c : comparison_cycles) (m : mem) (s : gstate) : Z :=
  let result := 0 in
  let p1 := test_scalar_performance m s in
  let result := Z.lor result (ret p1) in
  let p2 := test_ara_performance ara (mem_out p1) (g_out p1) in
  let result := Z.lor result (ret p2) in
  let p3 := test_gemmini_performance DIM hw (mem_out p2) (g_out p2) in
  let result := Z.lor result (ret p3) in
  let p4 := fst (test_comparison DIM ara hw (cyc_scalar_saxpy c) (cyc_ara_saxpy c)
                   (cyc_scalar_matmul c) (cyc_gemmini_matmul c) (mem_out p3) (g_out p3)) in
  let result := Z.lor result (ret p4) in
  result.

(** Static storage starts zeroed. *)
Definition static_mem : mem := fun _ => 0.
Definition static_gstate : gstate :=
  mk_gstate (fun _ _ => 0) (fun _ _ => 0) (fun _ _ => 0) (fun _ _ => 0).

(** * Specification-side definitions *)

(** The exact (unbounded) dot product of row [i] of [A] and column [j]
    of [B], following the spec's words. *)
Definition dot_product (DIM : nat) (A B : mat8) (i j : nat) : Z :=
  fold_right Z.add 0 (map (fun k => A i k * B k j) (seq 0 DIM)).

(** Clamping into the [int8_t] range [[-128, 127]]. *)
Definition sat8 (z : Z) : Z := Z.max (-128) (Z.min 127 z).

(** The kinds of Gemmini command (a move-in or move-out together with the
    buffer it moves), and the order the protocol prescribes after the
    flush: configure load stride, configure store stride,
    move-in A, move-in B, configure execute mode, preload zeros, compute,
    move-out, fence. *)
Inductive op_kind :=
  | K_flush | K_config_ld | K_config_st | K_mvin (b : gbuffer) | K_config_ex
  | K_preload | K_compute | K_mvout (b : gbuffer) | K_fence.

Definition op_kind_of (op : gemmini_op) : op_kind :=
  match op with
  | Flush _ => K_flush
  | Config_ld _ => K_config_ld
  | Config_st _ => K_config_st
  | Mvin b _ => K_mvin b
  | Config_ex _ _ _ => K_config_ex
  | Preload_zeros _ => K_preload
  | Compute_preloaded _ _ => K_compute
  | Mvout b _ => K_mvout b
  | Fence => K_fence
  end.

Definition protocol_order : list op_kind :=
  [K_config_ld; K_config_st; K_mvin Buf_gemmini_A; K_mvin Buf_gemmini_B; K_config_ex;
   K_preload; K_compute; K_mvout Buf_gemmini_C; K_fence].

(** The commands of a phase other than the flush. *)
Definition protocol_ops (ops : list gemmini_op) : list gemmini_op :=
  filter (fun op => match op with Flush _ => false | _ => true end) ops.

Definition gbuffer_eqb (b1 b2 : gbuffer) : bool :=
  match b1, b2 with
  | Buf_gemmini_A, Buf_gemmini_A | Buf_gemmini_B, Buf_gemmini_B
  | Buf_gemmini_C, Buf_gemmini_C => true
  | _, _ => false
  end.

(** Scratchpad address of the first move-in of [b], of the first preload,
    of the first move-out of [b], and the operands of the first compute. *)
Fixpoint mvin_addr (b : gbuffer) (ops : list gemmini_op) : option Z :=
  match ops with
  | [] => None
  | Mvin b' a :: ops' => if gbuffer_eqb b b' then Some a else mvin_addr b ops'
  | _ :: ops' => mvin_addr b ops'
  end.

Fixpoint preload_addr (ops : list gemmini_op) : option Z :=
  match ops with
  | [] => None
  | Preload_zeros a :: _ => Some a
  | _ :: ops' => preload_addr ops'
  end.

Fixpoint mvout_addr (b : gbuffer) (ops : list gemmini_op) : option Z :=
  match ops with
  | [] => None
  | Mvout b' a :: ops' => if gbuffer_eqb b b' then Some a else mvout_addr b ops'
  | _ :: ops' => mvout_addr b ops'
  end.

Fixpoint compute_operands (ops : list gemmini_op) : option (Z * Z) :=
  match ops with
  | [] => None
  | Compute_preloaded a b :: _ => Some (a, b)
  | _ :: ops' => compute_operands ops'
  end.

(** A move-in of a [DIM x DIM] matrix at [base] occupies the rows
    [[base, base + DIM)] of the scratchpad. *)
Definition sp_region (DIM : nat) (base r : Z) : Prop :=
  base <= r < base + Z.of_nat DIM.

(** What the spec asks of one Gemmini phase: the commands in protocol
    order, A moved in at [0], B at [DIM], C preloaded and moved out at
    [2*DIM], compute on A and B, and the three regions pairwise disjoint. *)
Definition protocol_phase_ok (DIM : nat) (ops : list gemmini_op) : Prop :=
  map op_kind_of (protocol_ops ops) = protocol_order /\
  mvin_addr Buf_gemmini_A ops = Some 0 /\
  mvin_addr Buf_gemmini_B ops = Some (Z.of_nat DIM) /\
  preload_addr ops = Some (2 * Z.of_nat DIM) /\
  compute_operands ops = Some (0, Z.of_nat DIM) /\
  mvout_addr Buf_gemmini_C ops = Some (2 * Z.of_nat DIM) /\
  (forall r, ~ (sp_region DIM 0 r /\ sp_region DIM (Z.of_nat DIM) r)) /\
  (forall r, ~ (sp_region DIM 0 r /\ sp_region DIM (2 * Z.of_nat DIM) r)) /\
  (forall r, ~ (sp_region DIM (Z.of_nat DIM) r /\ sp_region DIM (2 * Z.of_nat DIM) r)).

(** The cells whose result differs from the reference by more than the
    tolerance 1, in row-major order, as printed lines. *)
Definition row_mismatches (Cg Cref : mat8) (i j0 n : nat) : list mismatch_line :=
  map (fun j => (i, j, Cg i j, Cref i j))
      (filter (fun j => Z.abs (Cg i j - Cref i j) >? 1) (seq j0 n)).

Definition all_mismatches (DIM : nat) (Cg Cref : mat8) : list mismatch_line :=
  flat_map (fun i => row_mismatches Cg Cref i 0 DIM) (seq 0 DIM).

(** * Further routines of the two drivers *)

(** [zero_matrix_int32]: [mat[i] = 0;] for [i < size]. The phases call it
    on [scalar_C] (written out inline above). *)
Definition zero_matrix_int32 (mat : Z) (size : nat) (m : mem) : mem :=
  for_loop size (fun i m => store m (mat + Z.of_nat i) 0) 0 m.

(** The [k] loop of [scalar_matmul_int32] for cell [(i, j)]:
    [sum += (int64_t)A[i * N + k] * (int64_t)B[k * N + j];] from [sum = 0]. *)
Definition matmul_int32_sum (A B : Z) (N : nat) (m : mem) (i j : nat) : Z :=
  for_loop N (fun k sum =>
    wrap_s 64 (sum + wrap_s 64 (m (A + Z.of_nat (i * N + k)) * m (B + Z.of_nat (k * N + j)))))
    0 0.

(** [ara_vector_dot] ([ara_gemmini_scalar_compare.c]), the scalar
    fallback: [sum += (int64_t)x[i] * (int64_t)y[i];] in [int64_t]. *)
Definition ara_vector_dot (x y : Z) (n : nat) (m : mem) : Z :=
  for_loop n (fun i sum =>
    wrap_s 64 (sum + wrap_s 64 (m (x + Z.of_nat i) * m (y + Z.of_nat i)))) 0 0.

(** [enable_vector_extension]: the value written back to [mstatus] by
    [mstatus |= (1UL << 9);]. *)
Definition enable_vector_extension (mstatus : Z) : Z := Z.lor mstatus (Z.shiftl 1 9).

(** The [mstatus.VS] field, bits [10:9]: 0 Off, 1 Initial, 2 Clean, 3 Dirty. *)
Definition mstatus_VS (mstatus : Z) : Z := Z.land (Z.shiftr mstatus 9) 3.

(** The ops-per-cycle metric of [test_scalar_matmul] ([N = TEST_DIM]) and
    [test_gemmini_matmul] ([N = DIM]):
    [(2ULL * N * N * N * 1000) / cycles] in [uint64_t]. *)
Definition ops_x1000 (N cycles : Z) : div_result :=
  udiv64 (to_size (to_size (to_size (to_size (2 * N) * N) * N) * 1000)) cycles.

(** The exact (unbounded) dot products the two [int64_t] accumulations
    compute when they do not wrap. *)
Definition matmul_int32_dot (A B : Z) (N : nat) (m : mem) (i j : nat) : Z :=
  fold_right Z.add 0
    (map (fun k => m (A + Z.of_nat (i * N + k)) * m (B + Z.of_nat (k * N + j))) (seq 0 N)).

Definition vec_dot (x y : Z) (n : nat) (m : mem) : Z :=
  fold_right Z.add 0 (map (fun i => m (x + Z.of_nat i) * m (y + Z.of_nat i)) (seq 0 n)).

(** The indices of [[i, i + n)] where the two vectors differ, with both
    values, in increasing order. *)
Definition vec_mismatches (vy vref : nat -> Z) (i n : nat) : list (nat * Z * Z) :=
  map (fun k => (k, vy k, vref k)) (filter (fun k => negb (vy k =? vref k)) (seq i n)).

(** * Loop and store lemmas *)

(** Case analysis on every integer comparison of the goal. *)
Ltac cmp_cases :=
  repeat match goal with
  | |- context [Z.leb ?x ?y] => destruct (Z.leb_spec x y)
  | |- context [Z.ltb ?x ?y] => destruct (Z.ltb_spec x y)
  | |- context [Z.eqb ?x ?y] => destruct (Z.eqb_spec x y)
  | |- context [Nat.leb ?x ?y] => destruct (Nat.leb_spec x y)
  | |- context [Nat.ltb ?x ?y] => destruct (Nat.ltb_spec x y)
  | |- context [Nat.eqb ?x ?y] => destruct (Nat.eqb_spec x y)
  end; cbn [andb orb negb]; try lia.

Lemma for_loop_store (body : nat -> mem -> mem) (base : Z) (f : nat -> Z) :
  (forall i m a, body i m a = if a =? base + Z.of_nat i then f i else m a) ->
  forall n i0 m a,
    for_loop n body i0 m a =
    if (base + Z.of_nat i0 <=? a) && (a <? base + Z.of_nat i0 + Z.of_nat n)
    then f (Z.to_nat (a - base)) else m a.
Proof.
  intros Hbody n. induction n as [|n IH]; intros i0 m a; cbn [for_loop].
  - cmp_cases.
  - rewrite IH, Hbody. cmp_cases; subst; f_equal; lia.
Qed.

Lemma for_loop_row (body : nat -> mat8 -> mat8) (i : nat) (f : nat -> Z) :
  (forall j c i' j', body j c i' j' = if Nat.eqb i' i && Nat.eqb j' j then f j else c i' j') ->
  forall n j0 c i' j',
    for_loop n body j0 c i' j' =
    if Nat.eqb i' i && Nat.leb j0 j' && Nat.ltb j' (j0 + n) then f j' else c i' j'.
Proof.
  intros Hbody n. induction n as [|n IH]; intros j0 c i' j'; cbn [for_loop].
  - cmp_cases.
  - rewrite IH, Hbody. cmp_cases; subst; reflexivity.
Qed.

Lemma for_loop_rows (body : nat -> mat8 -> mat8) (k : nat) (g : nat -> nat -> Z) :
  (forall i c i' j', body i c i' j' =
     if Nat.eqb i' i && Nat.ltb j' k then g i j' else c i' j') ->
  forall n i0 c i' j',
    for_loop n body i0 c i' j' =
    if Nat.leb i0 i' && Nat.ltb i' (i0 + n) && Nat.ltb j' k then g i' j' else c i' j'.
Proof.
  intros Hbody n. induction n as [|n IH]; intros i0 c i' j'; cbn [for_loop].
  - cmp_cases.
  - rewrite IH, Hbody. cmp_cases; subst; reflexivity.
Qed.

(** A [DIM x DIM] double loop storing [g i j] at every cell. *)
Lemma for_loop_matrix (DIM : nat) (g : nat -> nat -> Z) (c : mat8) (i j : nat) :
  (i < DIM)%nat -> (j < DIM)%nat ->
  for_loop DIM (fun i c => for_loop DIM (fun j c => store8 c i j (g i j)) 0 c) 0 c i j
  = g i j.
Proof.
  intros Hi Hj.
  rewrite (for_loop_rows _ DIM g).
  - cmp_cases.
  - intros i0 c0 i' j'. rewrite (for_loop_row _ i0 (g i0)).
    + cmp_cases.
    + intros j0 c1 i'' j''. reflexivity.
Qed.

(** A flat loop [buf[i] = f(i)] for [i < n]. *)
Lemma for_loop_buffer (base : Z) (f : nat -> Z) (n : nat) (m : mem) (k : nat) :
  (k < n)%nat ->
  for_loop n (fun i m => store m (base + Z.of_nat i) (f i)) 0 m (base + Z.of_nat k) = f k.
Proof.
  intros Hk. rewrite (for_loop_store _ base f).
  - cmp_cases. f_equal. lia.
  - intros i m' a. reflexivity.
Qed.

(** * Integer conversion lemmas *)

Lemma to_size_add_mod (d k z c : Z) :
  0 < d -> 2 ^ 64 = k * d -> (to_size z + c) mod d = (z + c) mod d.
Proof.
  intros Hd Hk. unfold to_size.
  rewrite (Z.mod_eq z (2 ^ 64)) by lia.
  replace (z - 2 ^ 64 * (z / 2 ^ 64) + c) with ((z + c) + (- (k * (z / 2 ^ 64))) * d)
    by (rewrite Hk; ring).
  apply Z_mod_plus_full.
Qed.

Lemma to_int8_size (z : Z) : to_int8 (to_size z) = to_int8 z.
Proof.
  unfold to_int8, wrap_s, to_size.
  rewrite (Z.mod_mod_divide z (2 ^ 64) (2 ^ 8)); [reflexivity|].
  exists (2 ^ 56). reflexivity.
Qed.

Lemma to_int32_size (z : Z) : to_int32 (to_size z) = to_int32 z.
Proof.
  unfold to_int32, wrap_s, to_size.
  rewrite (Z.mod_mod_divide z (2 ^ 64) (2 ^ 32)); [reflexivity|].
  exists (2 ^ 32). reflexivity.
Qed.

Lemma wrap_s_small (w z : Z) :
  0 < w -> - 2 ^ (w - 1) <= z < 2 ^ (w - 1) -> wrap_s w z = z.
Proof.
  intros Hw Hz. unfold wrap_s.
  assert (Hpow : 2 ^ w = 2 * 2 ^ (w - 1)).
  { rewrite <- Z.pow_succ_r by lia. f_equal. lia. }
  assert (0 < 2 ^ (w - 1)) by (apply Z.pow_pos_nonneg; lia).
  destruct (Z_lt_le_dec z 0) as [Hneg|Hpos].
  - rewrite <- (Z_mod_plus_full z 1 (2 ^ w)).
    rewrite Z.mod_small by lia. cmp_cases.
  - rewrite Z.mod_small by lia. cmp_cases.
Qed.

Lemma to_int8_small (z : Z) : -128 <= z <= 127 -> to_int8 z = z.
Proof. intros H. apply wrap_s_small; simpl; lia. Qed.

Lemma to_int32_small (z : Z) : -2147483648 <= z <= 2147483647 -> to_int32 z = z.
Proof. intros H. apply wrap_s_small; simpl; lia. Qed.

(** * Workload generators *)

Lemma init_matrix_int8_cell (DIM : nat) (mat : mat8) (seed : Z) (i j : nat) :
  (i < DIM)%nat -> (j < DIM)%nat ->
  init_matrix_int8 DIM mat seed i j =
  to_int8 (to_size
    (to_size (to_size (seed + to_size (Z.of_nat i * Z.of_nat DIM)) + Z.of_nat j)
       mod 16 - 8)).
Proof.
  intros Hi Hj. unfold init_matrix_int8.
  rewrite for_loop_matrix by assumption. reflexivity.
Qed.

(** The [size_t] expression of [init_matrix_int8] modulo 16. *)
Lemma init_int8_index_mod (DIM : nat) (seed : Z) (i j : nat) :
  to_size (to_size (seed + to_size (Z.of_nat i * Z.of_nat DIM)) + Z.of_nat j) mod 16
  = (seed + Z.of_nat i * Z.of_nat DIM + Z.of_nat j) mod 16.
Proof.
  assert (H16 : 2 ^ 64 = 2 ^ 60 * 16) by reflexivity.
  rewrite <- (Z.add_0_r (to_size (to_size _ + _))).
  rewrite (to_size_add_mod 16 (2 ^ 60)) by (lia || exact H16).
  rewrite Z.add_0_r, (to_size_add_mod 16 (2 ^ 60)) by (lia || exact H16).
  replace (seed + to_size (Z.of_nat i * Z.of_nat DIM) + Z.of_nat j)
    with (to_size (Z.of_nat i * Z.of_nat DIM) + (seed + Z.of_nat j)) by ring.
  rewrite (to_size_add_mod 16 (2 ^ 60)) by (lia || exact H16).
  f_equal. ring.
Qed.

Lemma init_matrix_int32_cell (mat : Z) (size : nat) (seed : Z) (m : mem) (k : nat) :
  (k < size)%nat ->
  init_matrix_int32 mat size seed m (mat + Z.of_nat k) =
  to_int32 (to_size (to_size (seed + Z.of_nat k) mod 64 - 32)).
Proof. intros Hk. unfold init_matrix_int32. apply for_loop_buffer. exact Hk. Qed.

Lemma init_vector_int32_cell (vec : Z) (len : nat) (seed : Z) (m : mem) (k : nat) :
  (k < len)%nat ->
  init_vector_int32 vec len seed m (vec + Z.of_nat k) =
  to_int32 (to_size (to_size (seed + Z.of_nat k) mod 100 - 50)).
Proof. intros Hk. unfold init_vector_int32. apply for_loop_buffer. exact Hk. Qed.

(** C7: the generators write [((seed + i*DIM + j) mod 16) - 8] into cell
    [(i, j)] of a narrow matrix (a value in [[-8, 7]]),
    [((seed + i) mod 64) - 32] into element [i] of a wide matrix (in
    [[-32, 31]]) and [((seed + i) mod 100) - 50] into element [i] of a
    SAXPY vector (in [[-50, 49]]). The [uint32_t] seed and an index of an
    [int32_t] buffer (below [2^62]) keep [seed + i] inside [size_t]. *)
Theorem generators_write_formulas :
  (forall (DIM : nat) (mat : mat8) (seed : Z) (i j : nat),
     (i < DIM)%nat -> (j < DIM)%nat ->
     init_matrix_int8 DIM mat seed i j
       = (seed + Z.of_nat i * Z.of_nat DIM + Z.of_nat j) mod 16 - 8
     /\ -8 <= init_matrix_int8 DIM mat seed i j <= 7) /\
  (forall (mat : Z) (size : nat) (seed : Z) (m : mem) (i : nat),
     (i < size)%nat ->
     init_matrix_int32 mat size seed m (mat + Z.of_nat i) = (seed + Z.of_nat i) mod 64 - 32
     /\ -32 <= init_matrix_int32 mat size seed m (mat + Z.of_nat i) <= 31) /\
  (forall (vec : Z) (len : nat) (seed : Z) (m : mem) (i : nat),
     0 <= seed < 2 ^ 32 -> Z.of_nat len <= 2 ^ 62 -> (i < len)%nat ->
     init_vector_int32 vec len seed m (vec + Z.of_nat i) = (seed + Z.of_nat i) mod 100 - 50
     /\ -50 <= init_vector_int32 vec len seed m (vec + Z.of_nat i) <= 49).
Proof.
  split; [|split].
  - intros DIM mat seed i j Hi Hj.
    rewrite init_matrix_int8_cell by assumption.
    rewrite to_int8_size, init_int8_index_mod.
    pose proof (Z.mod_pos_bound (seed + Z.of_nat i * Z.of_nat DIM + Z.of_nat j) 16).
    rewrite to_int8_small by lia. lia.
  - intros mat size seed m i Hi.
    rewrite init_matrix_int32_cell by assumption.
    rewrite to_int32_size.
    rewrite <- (Z.add_0_r (to_size (seed + Z.of_nat i))).
    rewrite (to_size_add_mod 64 (2 ^ 58)) by (lia || reflexivity).
    rewrite Z.add_0_r.
    pose proof (Z.mod_pos_bound (seed + Z.of_nat i) 64).
    rewrite to_int32_small by lia. lia.
  - intros vec len seed m i Hseed Hlen Hi.
    rewrite init_vector_int32_cell by assumption.
    rewrite to_int32_size.
    assert (Hp : 2 ^ 32 + 2 ^ 62 <= 2 ^ 64) by (apply Z.leb_le; reflexivity).
    unfold to_size. rewrite (Z.mod_small (seed + Z.of_nat i)) by lia.
    pose proof (Z.mod_pos_bound (seed + Z.of_nat i) 100).
    rewrite to_int32_small by lia. lia.
Qed.

Lemma generators_write_formulas_witness :
  init_matrix_int8 16 (fun _ _ => 0) 0x5678 3%nat 5%nat = (0x5678 + 3 * 16 + 5) mod 16 - 8 /\
  init_matrix_int32 scalar_A MAT_SIZE 0x1111 (fun _ => 0) (scalar_A + 7) = (0x1111 + 7) mod 64 - 32 /\
  init_vector_int32 vec_x VEC_LEN 0xABCD (fun _ => 0) (vec_x + 200) = (0xABCD + 200) mod 100 - 50.
Proof.
  destruct generators_write_formulas as [H8 [H32 Hv]].
  split; [|split].
  - apply (H8 16%nat (fun _ _ => 0) 0x5678 3%nat 5%nat); lia.
  - apply (H32 scalar_A MAT_SIZE 0x1111 (fun _ => 0) 7%nat); unfold MAT_SIZE, TEST_DIM; lia.
  - apply (Hv vec_x VEC_LEN 0xABCD (fun _ => 0) 200%nat); unfold VEC_LEN; lia.
Defined.

(** C8: the generators are deterministic: two calls with the same seed
    (and length) write identical buffers, whatever the buffers held before. *)
Theorem generators_deterministic :
  (forall (DIM : nat) (seed : Z) (mat1 mat2 : mat8) (i j : nat),
     (i < DIM)%nat -> (j < DIM)%nat ->
     init_matrix_int8 DIM mat1 seed i j = init_matrix_int8 DIM mat2 seed i j) /\
  (forall (mat : Z) (size : nat) (seed : Z) (m1 m2 : mem) (k : nat),
     (k < size)%nat ->
     init_matrix_int32 mat size seed m1 (mat + Z.of_nat k)
     = init_matrix_int32 mat size seed m2 (mat + Z.of_nat k)) /\
  (forall (vec : Z) (len : nat) (seed : Z) (m1 m2 : mem) (k : nat),
     (k < len)%nat ->
     init_vector_int32 vec len seed m1 (vec + Z.of_nat k)
     = init_vector_int32 vec len seed m2 (vec + Z.of_nat k)).
Proof.
  split; [|split].
  - intros. rewrite !init_matrix_int8_cell by assumption. reflexivity.
  - intros. rewrite !init_matrix_int32_cell by assumption. reflexivity.
  - intros. rewrite !init_vector_int32_cell by assumption. reflexivity.
Qed.

Lemma generators_deterministic_witness :
  init_matrix_int8 16 (fun _ _ => 0) 0x3333 2%nat 9%nat
  = init_matrix_int8 16 (fun i j => 5) 0x3333 2%nat 9%nat /\
  init_matrix_int32 scalar_B MAT_SIZE 0x2222 (fun _ => 0) (scalar_B + 3)
    = init_matrix_int32 scalar_B MAT_SIZE 0x2222 (fun a => a) (scalar_B + 3) /\
  init_vector_int32 vec_y VEC_LEN 0x1234 (fun _ => 0) (vec_y + 100)
    = init_vector_int32 vec_y VEC_LEN 0x1234 (fun _ => 1) (vec_y + 100).
Proof.
  destruct generators_deterministic as [H8 [H32 Hv]].
  split; [|split].
  - apply (H8 16%nat 0x3333 (fun _ _ => 0) (fun i j => 5) 2%nat 9%nat); lia.
  - apply (H32 scalar_B MAT_SIZE 0x2222 (fun _ => 0) (fun a => a) 3%nat);
      unfold MAT_SIZE, TEST_DIM; lia.
  - apply (Hv vec_y VEC_LEN 0x1234 (fun _ => 0) (fun _ => 1) 100%nat); unfold VEC_LEN; lia.
Defined.

(** * Narrow scalar matrix multiply *)

Lemma for_loop_sum (p : nat -> Z) (n k0 : nat) (s : Z) :
  for_loop n (fun k s => s + p k) k0 s = s + fold_right Z.add 0 (map p (seq k0 n)).
Proof.
  revert k0 s. induction n as [|n IH]; intros k0 s; cbn [for_loop seq map fold_right].
  - ring.
  - rewrite IH. ring.
Qed.

(** With every product within [int8 * int8] and at most 131071 terms, the
    [int32_t] accumulation never wraps. *)
Lemma for_loop_sum_int32 (p : nat -> Z) (n k0 : nat) (s : Z) :
  (forall k, (k0 <= k < k0 + n)%nat -> -16384 <= p k <= 16384) ->
  Z.abs s <= Z.of_nat k0 * 16384 ->
  Z.of_nat (k0 + n) * 16384 < 2 ^ 31 ->
  for_loop n (fun k s => to_int32 (s + to_int32 (p k))) k0 s
  = for_loop n (fun k s => s + p k) k0 s.
Proof.
  revert k0 s. induction n as [|n IH]; intros k0 s Hp Hs Hn; cbn [for_loop].
  - reflexivity.
  - assert (Hk0 := Hp k0 ltac:(lia)).
    change (2 ^ 31) with 2147483648 in Hn.
    rewrite (to_int32_small (p k0)) by lia.
    rewrite (to_int32_small (s + p k0)) by lia.
    apply IH; [intros k Hk; apply Hp; lia | lia | lia].
Qed.

Lemma matmul_int8_sum_exact (DIM : nat) (A B : mat8) (i j : nat) :
  Z.of_nat DIM <= 131071 ->
  (forall k, (k < DIM)%nat -> -128 <= A i k <= 127) ->
  (forall k, (k < DIM)%nat -> -128 <= B k j <= 127) ->
  matmul_int8_sum DIM A B i j = dot_product DIM A B i j.
Proof.
  intros Hdim HA HB. unfold matmul_int8_sum, dot_product.
  rewrite (for_loop_sum_int32 (fun k => A i k * B k j)).
  - rewrite for_loop_sum. ring.
  - intros k Hk. specialize (HA k ltac:(lia)). specialize (HB k ltac:(lia)). nia.
  - simpl. lia.
  - change (2 ^ 31) with 2147483648. lia.
Qed.

Lemma scalar_matmul_int8_cell (DIM : nat) (A B C : mat8) (i j : nat) :
  (i < DIM)%nat -> (j < DIM)%nat ->
  scalar_matmul_int8 DIM A B C i j =
  to_int8 (let sum := matmul_int8_sum DIM A B i j in
           let sum := if sum >? 127 then 127 else sum in
           if sum <? -128 then -128 else sum).
Proof.
  intros Hi Hj. unfold scalar_matmul_int8.
  rewrite (for_loop_matrix DIM (fun i j =>
    to_int8 (let sum := matmul_int8_sum DIM A B i j in
             let sum := if sum >? 127 then 127 else sum in
             if sum <? -128 then -128 else sum))) by assumption.
  reflexivity.
Qed.

(** C2: for [DIM x DIM] matrices of [int8_t] values, each output cell of
    [scalar_matmul_int8] is the exact dot product of row [i] of [A] and
    column [j] of [B], accumulated in the [int32_t] sum (which equals it),
    then clamped into [[-128, 127]]; a dot product above 127 (below -128)
    yields exactly 127 (-128). [DIM] is the mesh dimension (16 here); any
    [DIM] up to 131071 keeps the [int32_t] sum from wrapping. *)
Theorem scalar_matmul_int8_saturates (DIM : nat) (A B C : mat8) :
  Z.of_nat DIM <= 131071 ->
  (forall i k, (i < DIM)%nat -> (k < DIM)%nat -> -128 <= A i k <= 127) ->
  (forall k j, (k < DIM)%nat -> (j < DIM)%nat -> -128 <= B k j <= 127) ->
  forall i j, (i < DIM)%nat -> (j < DIM)%nat ->
    matmul_int8_sum DIM A B i j = dot_product DIM A B i j /\
    scalar_matmul_int8 DIM A B C i j = sat8 (dot_product DIM A B i j) /\
    (dot_product DIM A B i j > 127 -> scalar_matmul_int8 DIM A B C i j = 127) /\
    (dot_product DIM A B i j < -128 -> scalar_matmul_int8 DIM A B C i j = -128).
Proof.
  intros Hdim HA HB i j Hi Hj.
  assert (Hsum : matmul_int8_sum DIM A B i j = dot_product DIM A B i j).
  { apply matmul_int8_sum_exact; auto. }
  assert (Hcell : scalar_matmul_int8 DIM A B C i j = sat8 (dot_product DIM A B i j)).
  { rewrite scalar_matmul_int8_cell by assumption. rewrite Hsum. cbv zeta.
    unfold sat8. rewrite Z.gtb_ltb.
    destruct (Z.ltb_spec 127 (dot_product DIM A B i j)); cmp_cases;
      rewrite to_int8_small; lia. }
  rewrite Hcell. unfold sat8. repeat split; auto; lia.
Qed.

Lemma scalar_matmul_int8_saturates_witness :
  dot_product 16 (fun _ _ => 7) (fun _ _ => 7) 0 0 = 784 /\
  scalar_matmul_int8 16 (fun _ _ => 7) (fun _ _ => 7) (fun _ _ => 0) 0%nat 0%nat = 127.
Proof.
  split; [reflexivity|].
  destruct (scalar_matmul_int8_saturates 16 (fun _ _ => 7) (fun _ _ => 7) (fun _ _ => 0))
    with (i := 0%nat) (j := 0%nat) as [_ [_ [Hhi _]]].
  - simpl. lia.
  - intros; lia.
  - intros; lia.
  - lia.
  - lia.
  - apply Hhi. vm_compute. reflexivity.
Defined.

(** * SAXPY kernels *)

(** The scalar loop, pointwise: when no [x[k]] of the range is a [y[k']]
    of the range, cell [y + k] ends as [a * x[k] + y[k]] of the initial
    store, and every other cell keeps its value. *)
Lemma scalar_saxpy_loop_spec (a x y : Z) (n i0 : nat) (m : mem) :
  (forall k k', (i0 <= k < i0 + n)%nat -> (i0 <= k' < i0 + n)%nat ->
     x + Z.of_nat k <> y + Z.of_nat k') ->
  forall addr,
    for_loop n (fun i m =>
      store m (y + Z.of_nat i)
        (to_int32 (to_int32 (a * m (x + Z.of_nat i)) + m (y + Z.of_nat i)))) i0 m addr
    = if (y + Z.of_nat i0 <=? addr) && (addr <? y + Z.of_nat i0 + Z.of_nat n)
      then to_int32 (to_int32 (a * m (x + (addr - y))) + m addr)
      else m addr.
Proof.
  revert i0 m. induction n as [|n IH]; intros i0 m Hdisj addr; cbn [for_loop].
  - cmp_cases.
  - rewrite IH.
    + unfold store.
      destruct (Z.eqb_spec (x + (addr - y)) (y + Z.of_nat i0)) as [Hx|Hx].
      * (* then [addr - y] is not in the range, or [Hdisj] fails *)
        cmp_cases; try reflexivity;
        exfalso; apply (Hdisj (Z.to_nat (addr - y)) i0); lia.
      * cmp_cases; try reflexivity.
        subst addr. replace (y + Z.of_nat i0 - y) with (Z.of_nat i0) by ring.
        reflexivity.
    + intros k k' Hk Hk'. apply Hdisj; lia.
Qed.

(** One strip of the vector loop: [vle32], [vmul.vx], [vadd.vv], [vse32]. *)
Lemma ara_strip_spec (a x y : Z) (vl : nat) (m : mem) (addr : Z) :
  vse32 m y vl (vadd_vv (vmul_vx (vle32 m x) a) (vle32 m y)) addr
  = if (y <=? addr) && (addr <? y + Z.of_nat vl)
    then to_int32 (to_int32 (a * m (x + (addr - y))) + m addr)
    else m addr.
Proof.
  unfold vse32.
  rewrite (for_loop_store _ y (fun k => vadd_vv (vmul_vx (vle32 m x) a) (vle32 m y) k)).
  - unfold vadd_vv, vmul_vx, vle32. cmp_cases.
    rewrite Z2Nat.id by lia. rewrite Z.mul_comm.
    replace (y + (addr - y)) with addr by ring. reflexivity.
  - intros i m' a'. reflexivity.
Qed.

(** The vector loop, pointwise, with [VLMAX > 0] and enough fuel. *)
Lemma ara_loop_spec (VLMAX : nat) (a : Z) :
  (0 < VLMAX)%nat ->
  forall fuel x y n m,
    (n <= fuel)%nat ->
    (forall k k', (k < n)%nat -> (k' < n)%nat -> x + Z.of_nat k <> y + Z.of_nat k') ->
    forall addr,
      ara_loop VLMAX fuel a x y n m addr
      = if (y <=? addr) && (addr <? y + Z.of_nat n)
        then to_int32 (to_int32 (a * m (x + (addr - y))) + m addr)
        else m addr.
Proof.
  intros Hv fuel. induction fuel as [|fuel IH]; intros x y n m Hn Hdisj addr;
    cbn [ara_loop].
  - assert (n = 0%nat) by lia. subst. cmp_cases.
  - destruct (Nat.ltb_spec 0 n) as [Hpos|Hz].
    2:{ assert (n = 0%nat) by lia. subst. cmp_cases. }
    unfold vsetvli.
    set (vl := Nat.min n VLMAX).
    assert (Hvl : (1 <= vl <= n)%nat) by (unfold vl; lia).
    rewrite IH.
    + rewrite !ara_strip_spec.
      assert (Hxy : forall d, 0 <= d < Z.of_nat n - Z.of_nat vl ->
                x + Z.of_nat vl + d < y \/ y + Z.of_nat vl <= x + Z.of_nat vl + d).
      { intros d Hd.
        destruct (Z_lt_le_dec (x + Z.of_nat vl + d) y) as [Hl|Hl]; [left; exact Hl|right].
        destruct (Z_lt_le_dec (x + Z.of_nat vl + d) (y + Z.of_nat vl)) as [Hl2|Hl2];
          [|exact Hl2].
        exfalso. apply (Hdisj (Z.to_nat (Z.of_nat vl + d))
                              (Z.to_nat (x + Z.of_nat vl + d - y))); try lia. }
      destruct (Z_lt_le_dec (addr - (y + Z.of_nat vl)) 0) as [Hlo|Hlo].
      * cmp_cases.
      * destruct (Z_lt_le_dec (addr - (y + Z.of_nat vl)) (Z.of_nat n - Z.of_nat vl))
          as [Hhi|Hhi].
        -- destruct (Hxy (addr - (y + Z.of_nat vl)) ltac:(lia)) as [H1|H1].
           ++ replace (x + Z.of_nat vl + (addr - (y + Z.of_nat vl))) with (x + (addr - y))
                in * by ring.
              cmp_cases.
           ++ replace (x + Z.of_nat vl + (addr - (y + Z.of_nat vl))) with (x + (addr - y))
                in * by ring.
              cmp_cases.
        -- cmp_cases.
    + lia.
    + intros k k' Hk Hk'.
      specialize (Hdisj (k + vl)%nat (k' + vl)%nat ltac:(lia) ltac:(lia)). lia.
Qed.

(** C10: [scalar_saxpy] writes only [y[0..n)], each cell [i] receiving
    [alpha * x[i] + y[i]] in [int32_t] arithmetic; the cells of [y] at
    index [n] and beyond and the whole [x] buffer keep their values, and
    so does every other address outside [y[0..n)]. The
    two buffers are distinct objects ([x] has [lx] elements, [y] has [ly],
    both at least [n]). *)
Theorem scalar_saxpy_frame (a x y : Z) (n lx ly : nat) (m : mem) :
  (n <= lx)%nat -> (n <= ly)%nat ->
  (x + Z.of_nat lx <= y \/ y + Z.of_nat ly <= x) ->
  (forall i, (i < n)%nat ->
     scalar_saxpy a x y n m (y + Z.of_nat i)
     = to_int32 (to_int32 (a * m (x + Z.of_nat i)) + m (y + Z.of_nat i))) /\
  (forall i, (n <= i)%nat -> scalar_saxpy a x y n m (y + Z.of_nat i) = m (y + Z.of_nat i)) /\
  (forall i, (i < lx)%nat -> scalar_saxpy a x y n m (x + Z.of_nat i) = m (x + Z.of_nat i)) /\
  (forall addr, ~ (y <= addr < y + Z.of_nat n) -> scalar_saxpy a x y n m addr = m addr).
Proof.
  intros Hlx Hly Hsep.
  assert (Hdisj : forall k k', (0 <= k < 0 + n)%nat -> (0 <= k' < 0 + n)%nat ->
                    x + Z.of_nat k <> y + Z.of_nat k') by (intros; lia).
  unfold scalar_saxpy.
  split; [|split; [|split]]; [intros i Hi | intros i Hi | intros i Hi | intros i Hi];
    rewrite (scalar_saxpy_loop_spec a x y n 0 m Hdisj); cmp_cases.
  replace (y + Z.of_nat i - y) with (Z.of_nat i) by ring. reflexivity.
Qed.

Lemma scalar_saxpy_frame_witness :
  scalar_saxpy 3 vec_x vec_y 4 (fun a => a) (vec_y + 2) = 3 * (vec_x + 2) + (vec_y + 2) /\
  scalar_saxpy 3 vec_x vec_y 4 (fun a => a) (vec_y + 4) = vec_y + 4 /\
  scalar_saxpy 3 vec_x vec_y 4 (fun a => a) (vec_x + 1) = vec_x + 1 /\
  scalar_saxpy 3 vec_x vec_y 4 (fun a => a) 5000 = 5000.
Proof.
  destruct (scalar_saxpy_frame 3 vec_x vec_y 4 VEC_LEN VEC_LEN (fun a => a))
    as [Hw [Hy [Hx Hf]]];
    try (unfold VEC_LEN, vec_x, vec_y; lia).
  split; [|split; [|split]].
  - etransitivity; [exact (Hw 2%nat ltac:(lia))|]. vm_compute. reflexivity.
  - exact (Hy 4%nat ltac:(lia)).
  - exact (Hx 1%nat ltac:(unfold VEC_LEN; lia)).
  - exact (Hf 5000 ltac:(unfold vec_y; lia)).
Defined.

(** C3: for every [alpha], [n] and pair of distinct buffers, the vector
    kernel [ara_vector_saxpy] leaves [y[k]] equal to what [scalar_saxpy]
    with the same [alpha] and [x] computes on an independent copy [yc] of
    the original [y], for every [n] (zero, below [VLMAX], or not a
    multiple of it: the last strip takes [vl = n mod VLMAX]); in fact the
    two kernels leave the same store. *)
Theorem ara_vector_saxpy_matches_scalar (VLMAX : nat) (a x y yc : Z) (n : nat) (m : mem) :
  (0 < VLMAX)%nat ->
  (forall k k', (k < n)%nat -> (k' < n)%nat -> x + Z.of_nat k <> y + Z.of_nat k') ->
  (forall k k', (k < n)%nat -> (k' < n)%nat -> x + Z.of_nat k <> yc + Z.of_nat k') ->
  (forall k, (k < n)%nat -> m (yc + Z.of_nat k) = m (y + Z.of_nat k)) ->
  (forall k, (k < n)%nat ->
     ara_vector_saxpy VLMAX a x y n m (y + Z.of_nat k)
     = scalar_saxpy a x yc n m (yc + Z.of_nat k)) /\
  (forall addr, ara_vector_saxpy VLMAX a x y n m addr = scalar_saxpy a x y n m addr).
Proof.
  intros Hv Hxy Hxyc Hcopy.
  unfold ara_vector_saxpy, scalar_saxpy. split.
  - intros k Hk.
    rewrite (ara_loop_spec VLMAX a Hv n x y n m (Nat.le_refl n) Hxy).
    rewrite (scalar_saxpy_loop_spec a x yc n 0 m) by (intros; apply Hxyc; lia).
    cmp_cases.
    replace (y + Z.of_nat k - y) with (Z.of_nat k) by ring.
    replace (yc + Z.of_nat k - yc) with (Z.of_nat k) by ring.
    rewrite Hcopy by exact Hk. reflexivity.
  - intros addr.
    rewrite (ara_loop_spec VLMAX a Hv n x y n m (Nat.le_refl n) Hxy).
    rewrite (scalar_saxpy_loop_spec a x y n 0 m) by (intros; apply Hxy; lia).
    cmp_cases.
Qed.

Lemma ara_vector_saxpy_matches_scalar_witness :
  ara_vector_saxpy 4 5 vec_x vec_y 10 (fun a => if a >=? vec_result then a - 256 else a)
    (vec_y + 9)
  = scalar_saxpy 5 vec_x vec_result 10 (fun a => if a >=? vec_result then a - 256 else a)
      (vec_result + 9).
Proof.
  destruct (ara_vector_saxpy_matches_scalar 4 5 vec_x vec_y vec_result 10
              (fun a => if a >=? vec_result then a - 256 else a)) as [H _].
  - lia.
  - intros k k' Hk Hk'. unfold vec_x, vec_y. lia.
  - intros k k' Hk Hk'. unfold vec_x, vec_result. lia.
  - intros k Hk. unfold vec_y, vec_result. rewrite !Z.geb_leb. cmp_cases.
  - exact (H 9%nat ltac:(lia)).
Defined.

(** * Gemmini command sequence *)

Lemma protocol_phase_ok_standard (DIM : nat) (ld st : Z) (A B C : gbuffer) :
  A = Buf_gemmini_A -> B = Buf_gemmini_B -> C = Buf_gemmini_C ->
  protocol_phase_ok DIM
    [Flush 0; Config_ld ld; Config_st st;
     Mvin A 0; Mvin B (Z.of_nat DIM);
     Config_ex OUTPUT_STATIONARY 0 0;
     Preload_zeros (2 * Z.of_nat DIM);
     Compute_preloaded 0 (Z.of_nat DIM);
     Mvout C (2 * Z.of_nat DIM);
     Fence].
Proof.
  intros -> -> ->. unfold protocol_phase_ok, sp_region.
  repeat split; try reflexivity; intros r [H1 H2]; lia.
Qed.

(** C1: each of the four Gemmini phases ([test_gemmini_matmul] and
    [test_performance_comparison] of [ara_gemmini_compare.c],
    [test_gemmini_performance] and [test_comparison] of
    [ara_gemmini_scalar_compare.c]) issues, after its flush, exactly the
    commands configure load stride, configure store stride, move-in A,
    move-in B, configure execute mode, preload zeros, compute, move-out,
    fence, in this order; A is moved in at [0], B at [DIM], C is preloaded
    and moved out at [2*DIM], and the scratchpad regions
    [[0, DIM)], [[DIM, 2*DIM)], [[2*DIM, 3*DIM)] are pairwise disjoint. *)
Theorem gemmini_phases_follow_protocol (DIM : nat) (ara : ara_impl) (hw : gemmini_hw)
    (c1 c2 c3 c4 : Z) (m : mem) (s : gstate) :
  protocol_phase_ok DIM (accel_ops (test_gemmini_matmul DIM hw m s)) /\
  protocol_phase_ok DIM (accel_ops (fst (test_performance_comparison DIM hw c1 c2 m s))) /\
  protocol_phase_ok DIM (accel_ops (test_gemmini_performance DIM hw m s)) /\
  protocol_phase_ok DIM (accel_ops (fst (test_comparison DIM ara hw c1 c2 c3 c4 m s))).
Proof.
  unfold test_gemmini_matmul, test_performance_comparison, test_gemmini_performance,
    test_comparison, sizeof_elem_t.
  split; [|split; [|split]]; cbv zeta;
    try destruct (verify_gemmini _ _ _);
    apply protocol_phase_ok_standard; reflexivity.
Qed.

(** * Verification of the Gemmini result *)

Lemma tolerance_test (d : Z) : (d <? -1) || (d >? 1) = (Z.abs d >? 1).
Proof. rewrite !Z.gtb_ltb. cmp_cases. Qed.

Lemma verify_row_spec (Cg Cref : mat8) (i : nat) :
  forall n j0 (e : nat) out, (e <= 5)%nat ->
    verify_row Cg Cref n i j0 (Z.of_nat e, out)
    = (Z.of_nat (e + Nat.min (5 - e) (length (row_mismatches Cg Cref i j0 n))),
       out ++ firstn (5 - e) (row_mismatches Cg Cref i j0 n)).
Proof.
  intro n. induction n as [|n IH]; intros j0 e out He.
  - unfold row_mismatches. cbn [verify_row seq filter map length].
    rewrite firstn_nil, app_nil_r, Nat.min_0_r, Nat.add_0_r. reflexivity.
  - unfold row_mismatches. cbn [verify_row seq filter].
    destruct (Z.ltb_spec (Z.of_nat e) 5) as [Hlt|Hge].
    + rewrite tolerance_test.
      destruct (Z.abs (Cg i j0 - Cref i j0) >? 1); cbn [map length].
      * replace (Z.of_nat e + 1) with (Z.of_nat (S e)) by lia.
        rewrite IH by lia. unfold row_mismatches.
        replace (5 - e)%nat with (S (4 - e)) by lia. cbn [firstn].
        rewrite <- app_assoc.
        replace (5 - S e)%nat with (4 - e)%nat by lia.
        f_equal; try reflexivity. f_equal. lia.
      * rewrite IH by lia. reflexivity.
    + assert (e = 5%nat) by lia. subst e.
      rewrite Nat.sub_diag, Nat.min_0_l, Nat.add_0_r. cbn [firstn].
      rewrite app_nil_r. reflexivity.
Qed.

Lemma verify_rows_spec (Cg Cref : mat8) (dim : nat) :
  forall n i0 (e : nat) out, (e <= 5)%nat ->
    verify_rows Cg Cref dim n i0 (Z.of_nat e, out)
    = let R := flat_map (fun i => row_mismatches Cg Cref i 0 dim) (seq i0 n) in
      (Z.of_nat (e + Nat.min (5 - e) (length R)), out ++ firstn (5 - e) R).
Proof.
  intro n. induction n as [|n IH]; intros i0 e out He; cbv zeta.
  - cbn [verify_rows seq flat_map length].
    rewrite firstn_nil, app_nil_r, Nat.min_0_r, Nat.add_0_r. reflexivity.
  - cbn [verify_rows seq flat_map fst].
    destruct (Z.ltb_spec (Z.of_nat e) 5) as [Hlt|Hge].
    + rewrite verify_row_spec by lia.
      set (M := row_mismatches Cg Cref i0 0 dim).
      set (R := flat_map (fun i => row_mismatches Cg Cref i 0 dim) (seq (S i0) n)).
      rewrite IH by lia. cbv zeta. fold R.
      rewrite firstn_app, <- app_assoc, length_app.
      replace (5 - (e + Nat.min (5 - e) (length M)))%nat with (5 - e - length M)%nat by lia.
      f_equal. f_equal. lia.
    + assert (e = 5%nat) by lia. subst e.
      rewrite Nat.sub_diag, Nat.min_0_l, Nat.add_0_r. cbn [firstn].
      rewrite app_nil_r. reflexivity.
Qed.

(** C4 (as the code does it): the check scans the cells in row-major
    order and records every cell with [|result - reference| > 1], printing
    its coordinates, result and reference, but stops scanning once 5
    mismatches are recorded: the count is [min 5 total] and the printed
    lines are the first [min 5 total] mismatches; the count is zero
    exactly when no cell mismatches. *)
Theorem verify_gemmini_stops_at_five (DIM : nat) (Cg Cref : mat8) :
  verify_gemmini DIM Cg Cref
  = (Z.of_nat (Nat.min 5 (length (all_mismatches DIM Cg Cref))),
     firstn 5 (all_mismatches DIM Cg Cref)) /\
  (fst (verify_gemmini DIM Cg Cref) = 0 <-> all_mismatches DIM Cg Cref = []).
Proof.
  assert (Hv : verify_gemmini DIM Cg Cref
               = (Z.of_nat (Nat.min 5 (length (all_mismatches DIM Cg Cref))),
                  firstn 5 (all_mismatches DIM Cg Cref))).
  { unfold verify_gemmini. change 0 with (Z.of_nat 0).
    rewrite verify_rows_spec by lia. reflexivity. }
  split; [exact Hv|]. rewrite Hv. cbn [fst].
  destruct (all_mismatches DIM Cg Cref); simpl; split; intro H; try reflexivity;
    try discriminate; lia.
Qed.

(** C4 fails as stated: with every one of the 256 cells of a 16 x 16
    result off by 10, the check reports 5 mismatches, not 256. *)
Lemma verify_gemmini_counts_all_counterexample :
  length (all_mismatches 16 (fun _ _ => 10) (fun _ _ => 0)) = 256%nat /\
  fst (verify_gemmini 16 (fun _ _ => 10) (fun _ _ => 0)) = 5.
Proof. split; vm_compute; reflexivity. Qed.

(** * Phase results and exit codes *)

Lemma ret_test_scalar_matmul (m : mem) (s : gstate) : ret (test_scalar_matmul m s) = 0.
Proof. reflexivity. Qed.

Lemma ret_test_gemmini_matmul (DIM : nat) (hw : gemmini_hw) (m : mem) (s : gstate) :
  ret (test_gemmini_matmul DIM hw m s) = 0.
Proof. unfold test_gemmini_matmul. cbv zeta. destruct (verify_gemmini _ _ _). reflexivity. Qed.

Lemma ret_test_performance_comparison (DIM : nat) (hw : gemmini_hw) (c1 c2 : Z)
    (m : mem) (s : gstate) :
  ret (fst (test_performance_comparison DIM hw c1 c2 m s)) = 0.
Proof. reflexivity. Qed.

Lemma ret_test_scalar_performance (m : mem) (s : gstate) : ret (test_scalar_performance m s) = 0.
Proof. reflexivity. Qed.

Lemma ret_test_gemmini_performance (DIM : nat) (hw : gemmini_hw) (m : mem) (s : gstate) :
  ret (test_gemmini_performance DIM hw m s) = 0.
Proof. unfold test_gemmini_performance. cbv zeta. destruct (verify_gemmini _ _ _). reflexivity. Qed.

Lemma ret_test_comparison (DIM : nat) (ara : ara_impl) (hw : gemmini_hw) (c1 c2 c3 c4 : Z)
    (m : mem) (s : gstate) :
  ret (fst (test_comparison DIM ara hw c1 c2 c3 c4 m s)) = 0.
Proof. reflexivity. Qed.

Lemma snd_test_performance_comparison (DIM : nat) (hw : gemmini_hw) (sc gc : Z)
    (m : mem) (s : gstate) :
  snd (test_performance_comparison DIM hw sc gc m s) = compare_speedup sc gc.
Proof. reflexivity. Qed.

Lemma snd_test_comparison (DIM : nat) (ara : ara_impl) (hw : gemmini_hw) (c1 c2 c3 c4 : Z)
    (m : mem) (s : gstate) :
  snd (test_comparison DIM ara hw c1 c2 c3 c4 m s) = comparison_speedups c1 c2 c3 c4.
Proof. reflexivity. Qed.

(** C5 fails as stated: with an accelerator output of all 100s the Gemmini
    check of [ara_gemmini_compare.c] records mismatches, and the process
    still exits with 0. *)
Lemma main_compare_mismatch_counterexample :
  errors (test_gemmini_matmul 16 (fun _ _ => fun _ _ => 100) static_mem static_gstate) = 5 /\
  main_compare 16 (fun _ _ => fun _ _ => 100) 1000 10 static_mem static_gstate = 0.
Proof. split; vm_compute; reflexivity. Qed.

(** C6 (as the code does it): the speedup is an unguarded unsigned
    division of the scalar cycle delta by the accelerated one; there is no
    sentinel: a zero accelerated delta makes the code divide by zero,
    any other delta gives the integer quotient. The same holds for each
    quotient of [test_comparison] on its own: the two SAXPY figures divide
    by the Ara cycle delta, the matmul figure by the Gemmini one. *)
Theorem speedup_division_unguarded (DIM : nat) (ara : ara_impl) (hw : gemmini_hw)
    (m : mem) (s : gstate) :
  (forall sc gc, gc = 0 ->
     snd (test_performance_comparison DIM hw sc gc m s) = DivByZero) /\
  (forall sc gc, gc <> 0 ->
     snd (test_performance_comparison DIM hw sc gc m s) = Quot (sc / gc)) /\
  (forall c1 c2 c3 c4, c2 = 0 ->
     fst (snd (test_comparison DIM ara hw c1 c2 c3 c4 m s)) = (DivByZero, DivByZero)) /\
  (forall c1 c2 c3 c4, c2 <> 0 ->
     fst (snd (test_comparison DIM ara hw c1 c2 c3 c4 m s))
     = (Quot (c1 / c2), Quot ((to_size (c1 * 10) / c2) mod 10))) /\
  (forall c1 c2 c3 c4, c4 = 0 ->
     snd (snd (test_comparison DIM ara hw c1 c2 c3 c4 m s)) = DivByZero) /\
  (forall c1 c2 c3 c4, c4 <> 0 ->
     snd (snd (test_comparison DIM ara hw c1 c2 c3 c4 m s)) = Quot (c3 / c4)).
Proof.
  repeat split; intros;
    rewrite ?snd_test_performance_comparison, ?snd_test_comparison;
    unfold compare_speedup, comparison_speedups, udiv64; cbn [fst snd]; subst; try reflexivity;
    repeat match goal with H : ?c <> 0 |- _ =>
      rewrite (proj2 (Z.eqb_neq c 0) H); clear H end; reflexivity.
Qed.

Lemma speedup_division_unguarded_witness :
  snd (test_performance_comparison 16 (fun _ _ => fun _ _ => 0) 5000 0 static_mem static_gstate)
    = DivByZero /\
  snd (test_performance_comparison 16 (fun _ _ => fun _ _ => 0) 5000 100 static_mem static_gstate)
    = Quot 50.
Proof.
  destruct (speedup_division_unguarded 16 (ara_vector_saxpy 128) (fun _ _ => fun _ _ => 0)
              static_mem static_gstate) as [H0 [H1 _]].
  split.
  - apply H0. reflexivity.
  - apply (H1 5000 100). discriminate.
Defined.

(** C6 fails as stated: a zero accelerated cycle delta is not mapped to a
    sentinel; the speedup is computed as a division by zero. *)
Lemma speedup_zero_cycles_counterexample :
  snd (test_performance_comparison 16 (fun _ _ => fun _ _ => 0) 5000 0 static_mem static_gstate)
  = DivByZero /\
  snd (test_comparison 16 (ara_vector_saxpy 128) (fun _ _ => fun _ _ => 0) 700 0 5000 0
         static_mem static_gstate)
  = (DivByZero, DivByZero, DivByZero).
Proof. split; reflexivity. Qed.

(** The SAXPY check records no mismatch exactly when it starts from a zero
    count and every compared element agrees. *)
Lemma verify_vec_zero (vy vref : nat -> Z) :
  forall n i e out, 0 <= e ->
  (fst (verify_vec vy vref n i (e, out)) = 0 <->
   e = 0 /\ forall k, (i <= k < i + n)%nat -> vy k = vref k).
Proof.
  induction n as [|n IH]; intros i e out He.
  - cbn. split; [intros ->; split; [reflexivity | intros; lia] | tauto].
  - cbn [verify_vec]. destruct (Z.ltb_spec e 5) as [Hlt|Hge].
    + destruct (Z.eqb_spec (vy i) (vref i)) as [Heq|Hne]; cbn [negb].
      * rewrite IH by lia. split.
        -- intros [-> Hall]. split; [reflexivity|]. intros k Hk.
           destruct (Nat.eq_dec k i) as [->|Hki]; [exact Heq|]. apply Hall. lia.
        -- intros [-> Hall]. split; [reflexivity|]. intros k Hk. apply Hall. lia.
      * rewrite IH by lia. split.
        -- intros [Hc _]. lia.
        -- intros [_ Hall]. exfalso. apply Hne, Hall. lia.
    + cbn [fst]. split; [lia|]. intros [-> _]. lia.
Qed.

(** Two integer vectors either agree on [0, n) or differ at some index there. *)
Lemma first_difference (f g : nat -> Z) (n : nat) :
  (forall k, (k < n)%nat -> f k = g k) \/ (exists k, (k < n)%nat /\ f k <> g k).
Proof.
  induction n as [|n [IH|IH]].
  - left. intros; lia.
  - destruct (Z.eq_dec (f n) (g n)) as [E|E].
    + left. intros k Hk. destruct (Nat.eq_dec k n) as [->|]; [exact E|]. apply IH. lia.
    + right. exists n. split; [lia|exact E].
  - right. destruct IH as [k [Hk E]]. exists k. split; [lia|exact E].
Qed.

Lemma ret_test_ara_performance_spec (ara : ara_impl) (m : mem) (s : gstate) :
  (ret (test_ara_performance ara m s) = 0 \/ ret (test_ara_performance ara m s) = 1) /\
  (ret (test_ara_performance ara m s) = 1 <->
   exists i, (i < VEC_LEN)%nat /\
     mem_out (test_ara_performance ara m s) (vec_y + Z.of_nat i)
     <> mem_out (test_ara_performance ara m s) (vec_ref + Z.of_nat i)).
Proof.
  unfold test_ara_performance. cbv zeta.
  match goal with |- context [verify_vec (fun i => ?M (vec_y + _)) _ _ _ _] =>
    set (mf := M) end.
  match goal with |- context [verify_vec ?vy ?vref ?n ?i ?st] =>
    pose proof (verify_vec_zero vy vref n i 0 [] ltac:(lia)) as Hz;
    destruct (verify_vec vy vref n i st) as [errs out] eqn:E end.
  cbn [fst] in Hz. cbn [ret mem_out].
  destruct (Z.eqb_spec errs 0) as [H0|H0].
  - split; [left; reflexivity|]. split; [discriminate|].
    intros [i [Hi Hne]]. exfalso. apply Hne. apply (proj2 (proj1 Hz H0)). lia.
  - split; [right; reflexivity|]. split; [intros _|reflexivity].
    destruct (first_difference (fun i => mf (vec_y + Z.of_nat i))
                (fun i => mf (vec_ref + Z.of_nat i)) VEC_LEN) as [Hall|Hex]; [|exact Hex].
    exfalso. apply H0, Hz. split; [reflexivity|].
    intros k Hk. apply Hall. lia.
Qed.

Lemma main_scalar_compare_ret_ara (DIM : nat) (ara : ara_impl) (hw : gemmini_hw)
    (c : comparison_cycles) (m : mem) (s : gstate) :
  main_scalar_compare DIM ara hw c m s
  = ret (test_ara_performance ara (mem_out (test_scalar_performance m s))
                                  (g_out (test_scalar_performance m s))).
Proof.
  unfold main_scalar_compare.
  rewrite ret_test_scalar_performance, ret_test_gemmini_performance, ret_test_comparison.
  rewrite Z.lor_0_l, !Z.lor_0_r. reflexivity.
Qed.

(** C5 (as the code does it): [main] of [ara_gemmini_compare.c] ORs the
    phase results, but every phase returns 0: a Gemmini verification
    mismatch never fails its phase, in either file, so that process always
    exits with 0. In [ara_gemmini_scalar_compare.c] the exit code is
    non-zero exactly when the Ara SAXPY check finds an element of [vec_y]
    that differs from [vec_ref]. *)
Theorem main_compare_exit_zero (DIM : nat) (hw : gemmini_hw) (c1 c2 : Z)
    (ara : ara_impl) (c : comparison_cycles) (m : mem) (s : gstate) :
  main_compare DIM hw c1 c2 m s = 0 /\
  ret (test_gemmini_matmul DIM hw m s) = 0 /\
  ret (test_gemmini_performance DIM hw m s) = 0 /\
  (let p2 := test_ara_performance ara (mem_out (test_scalar_performance m s))
                                      (g_out (test_scalar_performance m s)) in
   main_scalar_compare DIM ara hw c m s <> 0 <->
   exists i, (i < VEC_LEN)%nat /\
     mem_out p2 (vec_y + Z.of_nat i) <> mem_out p2 (vec_ref + Z.of_nat i)).
Proof.
  split; [|split; [apply ret_test_gemmini_matmul|split; [apply ret_test_gemmini_performance|]]].
  - unfold main_compare.
    rewrite ret_test_scalar_matmul, ret_test_gemmini_matmul, ret_test_performance_comparison.
    reflexivity.
  - intros p2. rewrite main_scalar_compare_ret_ara. fold p2.
    destruct (ret_test_ara_performance_spec ara (mem_out (test_scalar_performance m s))
                (g_out (test_scalar_performance m s))) as [H01 Hiff].
    fold p2 in H01, Hiff. rewrite <- Hiff.
    destruct H01 as [-> | ->]; split; intros; congruence || discriminate || lia.
Qed.

(** C9: in [ara_gemmini_scalar_compare.c] the exit code is the result of
    the Ara SAXPY phase: it is non-zero (namely 1) exactly when some
    [vec_y[i]] differs from [vec_ref[i]] after that phase;
    [test_ara_performance] returns 1 exactly on such a difference, and the
    scalar, Gemmini and comparison phases return 0 on every input, so the
    Gemmini hardware's output never changes the exit code. *)
Theorem scalar_compare_exit_code (DIM : nat) (ara : ara_impl) (hw : gemmini_hw)
    (c : comparison_cycles) (m : mem) (s : gstate) :
  let p1 := test_scalar_performance m s in
  let p2 := test_ara_performance ara (mem_out p1) (g_out p1) in
  main_scalar_compare DIM ara hw c m s = ret p2 /\
  (main_scalar_compare DIM ara hw c m s = 0 \/ main_scalar_compare DIM ara hw c m s = 1) /\
  (main_scalar_compare DIM ara hw c m s <> 0 <->
   exists i, (i < VEC_LEN)%nat /\
     mem_out p2 (vec_y + Z.of_nat i) <> mem_out p2 (vec_ref + Z.of_nat i)) /\
  (forall hw', main_scalar_compare DIM ara hw' c m s = main_scalar_compare DIM ara hw c m s) /\
  (forall ara' m' s', ret (test_ara_performance ara' m' s') = 1 <->
   exists i, (i < VEC_LEN)%nat /\
     mem_out (test_ara_performance ara' m' s') (vec_y + Z.of_nat i)
     <> mem_out (test_ara_performance ara' m' s') (vec_ref + Z.of_nat i)) /\
  (forall m' s', ret (test_scalar_performance m' s') = 0) /\
  (forall m' s', ret (test_gemmini_performance DIM hw m' s') = 0) /\
  (forall c1 c2 c3 c4 m' s', ret (fst (test_comparison DIM ara hw c1 c2 c3 c4 m' s')) = 0).
Proof.
  intros p1 p2.
  assert (Hmain : forall hw', main_scalar_compare DIM ara hw' c m s = ret p2).
  { intros hw'. unfold main_scalar_compare.
    rewrite ret_test_scalar_performance, ret_test_gemmini_performance, ret_test_comparison.
    rewrite Z.lor_0_l, !Z.lor_0_r. reflexivity. }
  destruct (ret_test_ara_performance_spec ara (mem_out p1) (g_out p1)) as [H01 Hiff].
  fold p2 in H01, Hiff.
  rewrite !Hmain.
  split; [reflexivity|]. split; [exact H01|]. split.
  { rewrite <- Hiff. destruct H01 as [-> | ->]; split; intros; congruence || discriminate || lia. }
  split; [intros hw'; rewrite !Hmain; reflexivity|].
  split; [intros; apply ret_test_ara_performance_spec|].
  split; [apply ret_test_scalar_performance|].
  split; [apply ret_test_gemmini_performance|apply ret_test_comparison].
Qed.

(** * Further loop lemmas *)

Lemma for_loop_ext {A : Type} (f g : nat -> A -> A) :
  forall n i s, (forall k s, (i <= k < i + n)%nat -> f k s = g k s) ->
  for_loop n f i s = for_loop n g i s.
Proof.
  intros n. induction n as [|n IH]; intros i s H; cbn [for_loop]; [reflexivity|].
  rewrite H by lia. apply IH. intros k s' Hk. apply H. lia.
Qed.

(** An [int64_t] accumulation whose partial sums stay in range does not wrap. *)
Lemma for_loop_sum_wrap64 (p : nat -> Z) (P : Z) :
  forall n k0 s,
  (forall k, (k0 <= k < k0 + n)%nat -> Z.abs (p k) <= P) ->
  Z.abs s <= Z.of_nat k0 * P ->
  Z.of_nat (k0 + n) * P < 2 ^ 63 ->
  for_loop n (fun k s => wrap_s 64 (s + wrap_s 64 (p k))) k0 s
  = for_loop n (fun k s => s + p k) k0 s.
Proof.
  intros n. induction n as [|n IH]; intros k0 s Hp Hs Hn; cbn [for_loop]; [reflexivity|].
  assert (Hk0 := Hp k0 ltac:(lia)).
  assert (HP : 0 <= P) by lia.
  change (2 ^ 63) with 9223372036854775808 in Hn.
  assert (Hb : Z.of_nat (S k0) * P <= Z.of_nat (k0 + S n) * P) by (apply Z.mul_le_mono_nonneg_r; lia).
  rewrite Nat2Z.inj_succ in Hb.
  rewrite (wrap_s_small 64 (p k0)) by (cbn; lia).
  rewrite (wrap_s_small 64 (s + p k0)) by (cbn; lia).
  apply IH.
  - intros k Hk. apply Hp. lia.
  - rewrite Nat2Z.inj_succ. lia.
  - replace (S k0 + n)%nat with (k0 + S n)%nat by lia. exact Hn.
Qed.

(** One row of a store loop writing [G m j] at [rb + j], where [G] reads
    only cells outside a region [R] holding the row. *)
Lemma row_loop_spec (R : Z -> Prop) (m0 : mem) (rb : Z) (len : nat) (G : mem -> nat -> Z)
    (body : nat -> mem -> mem) :
  (forall j m a, body j m a = if a =? rb + Z.of_nat j then G m j else m a) ->
  (forall j, (j < len)%nat -> R (rb + Z.of_nat j)) ->
  (forall m j, (forall a, ~ R a -> m a = m0 a) -> (j < len)%nat -> G m j = G m0 j) ->
  forall n j0 m, (j0 + n <= len)%nat -> (forall a, ~ R a -> m a = m0 a) ->
  forall a, for_loop n body j0 m a =
    if (rb + Z.of_nat j0 <=? a) && (a <? rb + Z.of_nat (j0 + n))
    then G m0 (Z.to_nat (a - rb)) else m a.
Proof.
  intros Hbody HR HG n. induction n as [|n IH]; intros j0 m Hn Hm a; cbn [for_loop].
  - cmp_cases.
  - rewrite IH.
    + rewrite Hbody, (HG m j0 Hm) by lia.
      cmp_cases; try reflexivity; subst; f_equal; lia.
    + lia.
    + intros a' Ha'. rewrite Hbody.
      destruct (Z.eqb_spec a' (rb + Z.of_nat j0)) as [->|]; [|apply Hm; exact Ha'].
      exfalso. apply Ha', HR. lia.
Qed.

(** The [N x N] double loop of [scalar_matmul_int32] writing [F m i j] at
    [C + i * N + j], where [F] reads only cells outside [C[0 .. N*N)]. *)
Lemma matrix_loop_spec (N : nat) (C : Z) (F : mem -> nat -> nat -> Z) (m0 : mem) :
  (forall m i j, (forall a, ~ (C <= a < C + Z.of_nat (N * N)) -> m a = m0 a) ->
     (i < N)%nat -> (j < N)%nat -> F m i j = F m0 i j) ->
  forall n i0 m, (i0 + n <= N)%nat ->
    (forall a, ~ (C <= a < C + Z.of_nat (N * N)) -> m a = m0 a) ->
    (forall i j, (i < i0)%nat -> (j < N)%nat -> m (C + Z.of_nat (i * N + j)) = F m0 i j) ->
    (forall a, ~ (C <= a < C + Z.of_nat (N * N)) ->
       for_loop n (fun i m => for_loop N (fun j m =>
         store m (C + Z.of_nat (i * N + j)) (F m i j)) 0 m) i0 m a = m0 a) /\
    (forall i j, (i < i0 + n)%nat -> (j < N)%nat ->
       for_loop n (fun i m => for_loop N (fun j m =>
         store m (C + Z.of_nat (i * N + j)) (F m i j)) 0 m) i0 m (C + Z.of_nat (i * N + j))
       = F m0 i j).
Proof.
  intros HF n. induction n as [|n IH]; intros i0 m Hn Hm Hcells; cbn [for_loop].
  - split; [exact Hm|]. intros i j Hi Hj. apply Hcells; lia.
  - assert (Hi0 : (i0 < N)%nat) by lia.
    assert (Hrow := row_loop_spec (fun a => C <= a < C + Z.of_nat (N * N)) m0
                      (C + Z.of_nat (i0 * N)) N (fun m j => F m i0 j)
                      (fun j m => store m (C + Z.of_nat (i0 * N + j)) (F m i0 j))).
    specialize (Hrow ltac:(intros j m' a; unfold store; rewrite Nat2Z.inj_add, Z.add_assoc;
                           reflexivity)).
    specialize (Hrow ltac:(intros j Hj; cbv beta; assert (i0 * N + j < N * N)%nat by nia; lia)).
    specialize (Hrow ltac:(intros m' j Hm' Hj; apply HF; assumption)).
    specialize (Hrow N 0%nat m ltac:(lia) Hm).
    edestruct (IH (S i0)) as [H1 H2]; [lia | | |].
    3:{ split; [exact H1|]. intros i j Hi Hj. apply H2; lia. }
    + intros a Ha. rewrite Hrow.
      assert (i0 * N + N <= N * N)%nat by nia.
      remember (i0 * N)%nat as r. remember (N * N)%nat as NN.
      cmp_cases; apply Hm; exact Ha.
    + intros i j Hi Hj. rewrite Hrow.
      destruct (Nat.eq_dec i i0) as [->|Hne].
      * rewrite Nat2Z.inj_add. remember (i0 * N)%nat as r. cmp_cases. f_equal. lia.
      * assert (i * N + j < i0 * N)%nat by nia.
        assert (i < i0)%nat by (destruct (Nat.lt_ge_cases i i0); [assumption|]; lia).
        remember (i * N + j)%nat as r'. remember (i0 * N)%nat as r.
        cmp_cases. subst r'. apply Hcells; lia.
Qed.

(** [matmul_int32_sum] reads only the [A] and [B] cells of row [i] and
    column [j]. *)
Lemma matmul_int32_sum_ext (A B : Z) (N : nat) (m m' : mem) (i j : nat) :
  (forall k, (k < N)%nat ->
     m (A + Z.of_nat (i * N + k)) = m' (A + Z.of_nat (i * N + k)) /\
     m (B + Z.of_nat (k * N + j)) = m' (B + Z.of_nat (k * N + j))) ->
  matmul_int32_sum A B N m i j = matmul_int32_sum A B N m' i j.
Proof.
  intros H. unfold matmul_int32_sum. apply for_loop_ext.
  intros k s Hk. destruct (H k ltac:(lia)) as [-> ->]. reflexivity.
Qed.

Lemma matmul_int32_sum_exact (A B : Z) (N : nat) (K : Z) (m : mem) (i j : nat) :
  (forall k, (k < N * N)%nat -> Z.abs (m (A + Z.of_nat k)) <= K) ->
  (forall k, (k < N * N)%nat -> Z.abs (m (B + Z.of_nat k)) <= K) ->
  Z.of_nat N * (K * K) < 2 ^ 63 ->
  (i < N)%nat -> (j < N)%nat ->
  matmul_int32_sum A B N m i j = matmul_int32_dot A B N m i j.
Proof.
  intros HA HB HN Hi Hj. unfold matmul_int32_sum, matmul_int32_dot.
  rewrite (for_loop_sum_wrap64
             (fun k => m (A + Z.of_nat (i * N + k)) * m (B + Z.of_nat (k * N + j))) (K * K)).
  - rewrite for_loop_sum. ring.
  - intros k Hk. rewrite Z.abs_mul.
    assert (Ha := HA (i * N + k)%nat ltac:(nia)).
    assert (Hb := HB (k * N + j)%nat ltac:(nia)).
    apply Z.mul_le_mono_nonneg; lia.
  - cbn. lia.
  - exact HN.
Qed.

(** X1: [scalar_matmul_int32] stores in [C[i * N + j]] the [int32_t]
    truncation of the exact dot product of row [i] of [A] and column [j]
    of [B], as long as the [int64_t] accumulator cannot overflow (every
    input element within [K] in absolute value, [N * K * K < 2^63]) and
    [C] does not overlap [A] or [B]; it writes no cell outside
    [C[0 .. N*N)]. *)
Theorem scalar_matmul_int32_spec (A B C : Z) (N : nat) (K : Z) (m : mem) :
  (forall k, (k < N * N)%nat -> Z.abs (m (A + Z.of_nat k)) <= K) ->
  (forall k, (k < N * N)%nat -> Z.abs (m (B + Z.of_nat k)) <= K) ->
  Z.of_nat N * (K * K) < 2 ^ 63 ->
  (C + Z.of_nat (N * N) <= A \/ A + Z.of_nat (N * N) <= C) ->
  (C + Z.of_nat (N * N) <= B \/ B + Z.of_nat (N * N) <= C) ->
  (forall i j, (i < N)%nat -> (j < N)%nat ->
     scalar_matmul_int32 A B C N m (C + Z.of_nat (i * N + j))
     = to_int32 (matmul_int32_dot A B N m i j)) /\
  (forall a, ~ (C <= a < C + Z.of_nat (N * N)) -> scalar_matmul_int32 A B C N m a = m a).
Proof.
  intros HA HB HN HsA HsB.
  assert (HF : forall m' i j,
            (forall a, ~ (C <= a < C + Z.of_nat (N * N)) -> m' a = m a) ->
            (i < N)%nat -> (j < N)%nat ->
            to_int32 (matmul_int32_sum A B N m' i j) = to_int32 (matmul_int32_sum A B N m i j)).
  { intros m' i j Hm' Hi Hj. f_equal. apply matmul_int32_sum_ext.
    intros k Hk. split; apply Hm'.
    - assert (i * N + k < N * N)%nat by nia. lia.
    - assert (k * N + j < N * N)%nat by nia. lia. }
  destruct (matrix_loop_spec N C (fun m i j => to_int32 (matmul_int32_sum A B N m i j)) m HF
              N 0 m ltac:(lia) ltac:(intros; reflexivity) ltac:(intros; lia)) as [Hout Hin].
  change (scalar_matmul_int32 A B C N m) with
    (for_loop N (fun i m => for_loop N (fun j m =>
       store m (C + Z.of_nat (i * N + j)) (to_int32 (matmul_int32_sum A B N m i j))) 0 m) 0 m).
  split.
  - intros i j Hi Hj. rewrite Hin by lia. f_equal.
    apply (matmul_int32_sum_exact A B N K); assumption.
  - exact Hout.
Qed.

Lemma scalar_matmul_int32_spec_witness :
  scalar_matmul_int32 scalar_A scalar_B scalar_C 2 (fun a => if a <? scalar_C then 3 else 0)
    (scalar_C + 3) = 18 /\
  scalar_matmul_int32 scalar_A scalar_B scalar_C 2 (fun a => if a <? scalar_C then 3 else 0)
    (scalar_C + 4) = 0.
Proof.
  destruct (scalar_matmul_int32_spec scalar_A scalar_B scalar_C 2 3
              (fun a => if a <? scalar_C then 3 else 0)) as [Hin Hout].
  - intros k Hk. unfold scalar_A, scalar_C. cmp_cases.
  - intros k Hk. unfold scalar_B, scalar_C. cmp_cases.
  - cbn. lia.
  - unfold scalar_A, scalar_C. lia.
  - unfold scalar_B, scalar_C. lia.
  - split.
    + exact (Hin 1%nat 1%nat ltac:(lia) ltac:(lia)).
    + apply Hout. unfold scalar_C. lia.
Defined.

(** X2: the [ara_vector_dot] fallback returns the exact dot product of
    [x[0 .. n)] and [y[0 .. n)] whenever its [int64_t] sum cannot
    overflow: every element within [K] in absolute value and
    [n * K * K < 2^63]; for [n = 0] it returns 0. *)
Theorem ara_vector_dot_exact (x y : Z) (n : nat) (K : Z) (m : mem) :
  (forall i, (i < n)%nat -> Z.abs (m (x + Z.of_nat i)) <= K) ->
  (forall i, (i < n)%nat -> Z.abs (m (y + Z.of_nat i)) <= K) ->
  Z.of_nat n * (K * K) < 2 ^ 63 ->
  ara_vector_dot x y n m = vec_dot x y n m.
Proof.
  intros Hx Hy Hn. unfold ara_vector_dot, vec_dot.
  rewrite (for_loop_sum_wrap64 (fun i => m (x + Z.of_nat i) * m (y + Z.of_nat i)) (K * K)).
  - rewrite for_loop_sum. ring.
  - intros k Hk. rewrite Z.abs_mul.
    assert (Ha := Hx k ltac:(lia)). assert (Hb := Hy k ltac:(lia)).
    apply Z.mul_le_mono_nonneg; lia.
  - cbn. lia.
  - exact Hn.
Qed.

Lemma ara_vector_dot_exact_witness :
  ara_vector_dot vec_x vec_y 3 (fun a => a - vec_x) = 0 * 256 + 1 * 257 + 2 * 258.
Proof.
  rewrite (ara_vector_dot_exact vec_x vec_y 3 300 (fun a => a - vec_x)).
  - reflexivity.
  - intros i Hi. unfold vec_x. lia.
  - intros i Hi. unfold vec_x, vec_y. lia.
  - cbn. lia.
Defined.

(** X3: the flat fillers [init_matrix_int32], [init_vector_int32] and
    [zero_matrix_int32] write only [mat[0 .. size)]: every other cell of
    the store keeps its value; [zero_matrix_int32] leaves that range at 0. *)
Theorem flat_fillers_frame (base : Z) (size : nat) (seed : Z) (m : mem) :
  (forall k, (k < size)%nat -> zero_matrix_int32 base size m (base + Z.of_nat k) = 0) /\
  (forall a, ~ (base <= a < base + Z.of_nat size) ->
     init_matrix_int32 base size seed m a = m a /\
     init_vector_int32 base size seed m a = m a /\
     zero_matrix_int32 base size m a = m a).
Proof.
  split.
  - intros k Hk. unfold zero_matrix_int32. apply (for_loop_buffer base (fun _ => 0)). exact Hk.
  - intros a Ha. unfold init_matrix_int32, init_vector_int32, zero_matrix_int32.
    rewrite (for_loop_store _ base (fun i => to_int32 (to_size (to_size (seed + Z.of_nat i) mod 64 - 32))))
      by (intros; reflexivity).
    rewrite (for_loop_store _ base (fun i => to_int32 (to_size (to_size (seed + Z.of_nat i) mod 100 - 50))))
      by (intros; reflexivity).
    rewrite (for_loop_store _ base (fun _ => 0)) by (intros; reflexivity).
    cmp_cases; repeat split; reflexivity.
Qed.

Lemma flat_fillers_frame_witness :
  zero_matrix_int32 scalar_C MAT_SIZE (fun _ => 7) (scalar_C + 5) = 0 /\
  init_vector_int32 vec_y VEC_LEN 0x1234 (fun _ => 7) (vec_y + 256) = 7.
Proof.
  destruct (flat_fillers_frame scalar_C MAT_SIZE 0 (fun _ => 7)) as [Hz _].
  destruct (flat_fillers_frame vec_y VEC_LEN 0x1234 (fun _ => 7)) as [_ Hf].
  split.
  - change (scalar_C + 5) with (scalar_C + Z.of_nat 5).
    exact (Hz 5%nat ltac:(unfold MAT_SIZE, TEST_DIM; lia)).
  - exact (proj1 (proj2 (Hf (vec_y + 256) ltac:(unfold VEC_LEN; lia)))).
Defined.

(** * [int32_t] wrap-around *)

Lemma to_int32_congr (z t : Z) : to_int32 (z + 2 ^ 32 * t) = to_int32 z.
Proof.
  unfold to_int32, wrap_s. rewrite (Z.mul_comm (2 ^ 32) t), Z_mod_plus_full. reflexivity.
Qed.

Lemma to_int32_sub (z : Z) : exists q, to_int32 z = z - 2 ^ 32 * q.
Proof.
  unfold to_int32, wrap_s.
  assert (Hz := Z.div_mod z (2 ^ 32) ltac:(lia)).
  destruct (Z.ltb_spec (z mod 2 ^ 32) (2 ^ (32 - 1))).
  - exists (z / 2 ^ 32). lia.
  - exists (z / 2 ^ 32 + 1). lia.
Qed.

Lemma to_int32_plus_l (u v : Z) : to_int32 (to_int32 u + v) = to_int32 (u + v).
Proof.
  destruct (to_int32_sub u) as [q ->].
  replace (u - 2 ^ 32 * q + v) with (u + v + 2 ^ 32 * (- q)) by ring.
  apply to_int32_congr.
Qed.

Lemma to_int32_plus_r (u v : Z) : to_int32 (u + to_int32 v) = to_int32 (u + v).
Proof. rewrite (Z.add_comm u), to_int32_plus_l, Z.add_comm. reflexivity. Qed.

Lemma to_int32_mul_l (u v : Z) : to_int32 (to_int32 u * v) = to_int32 (u * v).
Proof.
  destruct (to_int32_sub u) as [q ->].
  replace ((u - 2 ^ 32 * q) * v) with (u * v + 2 ^ 32 * (- (q * v))) by ring.
  apply to_int32_congr.
Qed.

Lemma to_int32_saxpy_twice (a b X Y : Z) :
  to_int32 (to_int32 (b * X) + to_int32 (to_int32 (a * X) + Y))
  = to_int32 (to_int32 (to_int32 (a + b) * X) + Y).
Proof.
  destruct (to_int32_sub (a * X)) as [q ->].
  destruct (to_int32_sub (a + b)) as [q' ->].
  rewrite to_int32_plus_r, !to_int32_plus_l.
  replace (b * X + (a * X - 2 ^ 32 * q + Y))
    with ((a + b - 2 ^ 32 * q') * X + Y + 2 ^ 32 * (q' * X - q)) by ring.
  apply to_int32_congr.
Qed.

(** X5: two [scalar_saxpy] calls on the same, non-overlapping [x] and [y]
    with factors [a] then [b] leave the same store as one call with the
    factor [a + b] (in [int32_t], modulo [2^32]). *)
Theorem scalar_saxpy_compose (a b x y : Z) (n : nat) (m : mem) :
  (forall k k', (k < n)%nat -> (k' < n)%nat -> x + Z.of_nat k <> y + Z.of_nat k') ->
  forall addr,
    scalar_saxpy b x y n (scalar_saxpy a x y n m) addr
    = scalar_saxpy (to_int32 (a + b)) x y n m addr.
Proof.
  intros Hdisj addr. unfold scalar_saxpy.
  assert (Hd : forall k k', (0 <= k < 0 + n)%nat -> (0 <= k' < 0 + n)%nat ->
                 x + Z.of_nat k <> y + Z.of_nat k') by (intros; apply Hdisj; lia).
  rewrite !(scalar_saxpy_loop_spec _ x y n 0 _ Hd).
  assert (Hx : y <= addr < y + Z.of_nat n ->
               ~ (y <= x + (addr - y) < y + Z.of_nat n)).
  { intros Ha Hb. apply (Hdisj (Z.to_nat (addr - y)) (Z.to_nat (x + (addr - y) - y))); lia. }
  cmp_cases; try reflexivity; apply to_int32_saxpy_twice.
Qed.

Lemma scalar_saxpy_compose_witness :
  scalar_saxpy 5 vec_x vec_y 4 (scalar_saxpy 3 vec_x vec_y 4 (fun a => a)) (vec_y + 1)
  = scalar_saxpy 8 vec_x vec_y 4 (fun a => a) (vec_y + 1).
Proof.
  exact (scalar_saxpy_compose 3 5 vec_x vec_y 4 (fun a => a)
           ltac:(intros; unfold vec_x, vec_y; lia) (vec_y + 1)).
Defined.

(** X6: the vector kernel [ara_vector_saxpy] (any [VLMAX > 0]) sets
    [y[i]] to [a * x[i] + y[i]] in [int32_t] for [i < n] and writes no
    other cell, when no element of [x[0 .. n)] is an element of
    [y[0 .. n)]. *)
Theorem ara_vector_saxpy_frame (VLMAX : nat) (a x y : Z) (n : nat) (m : mem) :
  (0 < VLMAX)%nat ->
  (forall k k', (k < n)%nat -> (k' < n)%nat -> x + Z.of_nat k <> y + Z.of_nat k') ->
  (forall i, (i < n)%nat ->
     ara_vector_saxpy VLMAX a x y n m (y + Z.of_nat i)
     = to_int32 (to_int32 (a * m (x + Z.of_nat i)) + m (y + Z.of_nat i))) /\
  (forall addr, ~ (y <= addr < y + Z.of_nat n) -> ara_vector_saxpy VLMAX a x y n m addr = m addr).
Proof.
  intros Hv Hdisj. unfold ara_vector_saxpy.
  split; [intros i Hi | intros addr Ha];
    rewrite (ara_loop_spec VLMAX a Hv n x y n m (Nat.le_refl n) Hdisj); cmp_cases.
  replace (y + Z.of_nat i - y) with (Z.of_nat i) by ring. reflexivity.
Qed.

Lemma ara_vector_saxpy_frame_witness :
  ara_vector_saxpy 4 3 vec_x vec_y 6 (fun a => a) (vec_y + 5) = 3 * (vec_x + 5) + (vec_y + 5) /\
  ara_vector_saxpy 4 3 vec_x vec_y 6 (fun a => a) (vec_y + 6) = vec_y + 6.
Proof.
  destruct (ara_vector_saxpy_frame 4 3 vec_x vec_y 6 (fun a => a)) as [Hw Hf].
  - lia.
  - intros k k' Hk Hk'. unfold vec_x, vec_y. lia.
  - split.
    + etransitivity; [exact (Hw 5%nat ltac:(lia))|]. vm_compute. reflexivity.
    + apply Hf. lia.
Defined.

(** * The vector check of [test_ara_performance] *)

Lemma verify_vec_spec (vy vref : nat -> Z) :
  forall n i0 (e : nat) out, (e <= 5)%nat ->
    verify_vec vy vref n i0 (Z.of_nat e, out)
    = (Z.of_nat (e + Nat.min (5 - e) (length (vec_mismatches vy vref i0 n))),
       out ++ firstn (5 - e) (vec_mismatches vy vref i0 n)).
Proof.
  intro n. induction n as [|n IH]; intros i0 e out He.
  - unfold vec_mismatches. cbn [verify_vec seq filter map length].
    rewrite firstn_nil, app_nil_r, Nat.min_0_r, Nat.add_0_r. reflexivity.
  - unfold vec_mismatches. cbn [verify_vec seq filter].
    destruct (Z.ltb_spec (Z.of_nat e) 5) as [Hlt|Hge].
    + destruct (vy i0 =? vref i0); cbn [negb map length].
      * rewrite IH by lia. reflexivity.
      * replace (Z.of_nat e + 1) with (Z.of_nat (S e)) by lia.
        rewrite IH by lia. unfold vec_mismatches.
        replace (5 - e)%nat with (S (4 - e)) by lia. cbn [firstn].
        rewrite <- app_assoc.
        replace (5 - S e)%nat with (4 - e)%nat by lia.
        f_equal; try reflexivity. f_equal. lia.
    + assert (e = 5%nat) by lia. subst e.
      rewrite Nat.sub_diag, Nat.min_0_l, Nat.add_0_r. cbn [firstn].
      rewrite app_nil_r. reflexivity.
Qed.

(** X7: the SAXPY check of [test_ara_performance] scans [vec_y] against
    [vec_ref] in index order and stops after 5 mismatches: it records
    [min 5 total] mismatches and prints the first [min 5 total] of them;
    the [errors] count the phase reports (and prints in its FAILED
    line) is [min 5 total], never more than 5. *)
Theorem ara_check_stops_at_five (vy vref : nat -> Z) (n : nat) (ara : ara_impl)
    (m : mem) (s : gstate) :
  verify_vec vy vref n 0 (0, [])
  = (Z.of_nat (Nat.min 5 (length (vec_mismatches vy vref 0 n))),
     firstn 5 (vec_mismatches vy vref 0 n)) /\
  (let p := test_ara_performance ara m s in
   errors p = Z.of_nat (Nat.min 5 (length (vec_mismatches
                 (fun i => mem_out p (vec_y + Z.of_nat i))
                 (fun i => mem_out p (vec_ref + Z.of_nat i)) 0 VEC_LEN))) /\
   0 <= errors p <= 5).
Proof.
  assert (Hgen : forall vy vref n, verify_vec vy vref n 0 (0, [])
            = (Z.of_nat (Nat.min 5 (length (vec_mismatches vy vref 0 n))),
               firstn 5 (vec_mismatches vy vref 0 n))).
  { intros vy' vref' n'. change (0, @nil (nat * Z * Z)) with (Z.of_nat 0, @nil (nat * Z * Z)).
    rewrite verify_vec_spec by lia. reflexivity. }
  split; [apply Hgen|].
  cbv zeta. unfold test_ara_performance. cbv zeta.
  match goal with |- context [verify_vec (fun i => ?M (vec_y + _)) _ _ _ _] =>
    set (mf := M) end.
  rewrite Hgen. cbn [errors mem_out]. split; [reflexivity | lia].
Qed.

(** * The Ara phase with the vector kernel of the file *)

Lemma init_vector_int32_frame (vec : Z) (len : nat) (seed : Z) (m : mem) (a : Z) :
  ~ (vec <= a < vec + Z.of_nat len) -> init_vector_int32 vec len seed m a = m a.
Proof.
  intros Ha. unfold init_vector_int32.
  rewrite (for_loop_store _ vec
             (fun i => to_int32 (to_size (to_size (seed + Z.of_nat i) mod 100 - 50)))).
  - cmp_cases.
  - intros i m' a'. reflexivity.
Qed.

Lemma copy_loop_spec (dst src : Z) (n : nat) (m : mem) :
  (forall k k', (k < n)%nat -> (k' < n)%nat -> src + Z.of_nat k <> dst + Z.of_nat k') ->
  forall a,
    for_loop n (fun i m => store m (dst + Z.of_nat i) (m (src + Z.of_nat i))) 0 m a
    = if (dst <=? a) && (a <? dst + Z.of_nat n) then m (src + (a - dst)) else m a.
Proof.
  intros Hd a.
  assert (Hb : forall j (m' : mem) a',
    store m' (dst + Z.of_nat j) (m' (src + Z.of_nat j)) a'
    = if a' =? dst + Z.of_nat j then m' (src + Z.of_nat j) else m' a')
    by (intros; reflexivity).
  assert (HR : forall j, (j < n)%nat -> dst <= dst + Z.of_nat j < dst + Z.of_nat n)
    by (intros; lia).
  assert (HG : forall (m' : mem) j,
    (forall a', ~ (dst <= a' < dst + Z.of_nat n) -> m' a' = m a') -> (j < n)%nat ->
    m' (src + Z.of_nat j) = m (src + Z.of_nat j)).
  { intros m' j Hm' Hj. apply Hm'. intros Hin.
    apply (Hd j (Z.to_nat (src + Z.of_nat j - dst))); lia. }
  rewrite (row_loop_spec (fun a => dst <= a < dst + Z.of_nat n) m dst n
             (fun m j => m (src + Z.of_nat j)) _ Hb HR HG n 0 m ltac:(lia)
             (fun _ _ => eq_refl)).
  cmp_cases. f_equal. lia.
Qed.

Lemma ara_phase_vectors_agree (VLMAX : nat) (m : mem) :
  (0 < VLMAX)%nat ->
  forall i, (i < VEC_LEN)%nat ->
  let m1 := init_vector_int32 vec_x VEC_LEN 0xABCD m in
  let m2 := init_vector_int32 vec_y VEC_LEN 0x1234 m1 in
  let m3 := for_loop VEC_LEN (fun i m =>
              store m (vec_ref + Z.of_nat i) (m (vec_y + Z.of_nat i))) 0 m2 in
  let m4 := scalar_saxpy 3 vec_x vec_ref VEC_LEN m3 in
  let m5 := init_vector_int32 vec_y VEC_LEN 0x1234 m4 in
  let m6 := ara_vector_saxpy VLMAX 3 vec_x vec_y VEC_LEN m5 in
  m6 (vec_y + Z.of_nat i) = m6 (vec_ref + Z.of_nat i).
Proof.
  intros Hv i Hi m1 m2 m3 m4 m5 m6.
  assert (HL : Z.of_nat VEC_LEN = 256) by reflexivity.
  assert (Hx : vec_x = 1024) by reflexivity.
  assert (Hy : vec_y = 1280) by reflexivity.
  assert (Hr : vec_ref = 1792) by reflexivity.
  assert (Hi' : 0 <= Z.of_nat i < 256) by lia.
  assert (Dxy : forall k k', (k < VEC_LEN)%nat -> (k' < VEC_LEN)%nat ->
                  vec_x + Z.of_nat k <> vec_y + Z.of_nat k') by (intros; lia).
  assert (Dxr : forall k k', (0 <= k < 0 + VEC_LEN)%nat -> (0 <= k' < 0 + VEC_LEN)%nat ->
                  vec_x + Z.of_nat k <> vec_ref + Z.of_nat k') by (intros; lia).
  assert (Dyr : forall k k', (k < VEC_LEN)%nat -> (k' < VEC_LEN)%nat ->
                  vec_y + Z.of_nat k <> vec_ref + Z.of_nat k') by (intros; lia).
  assert (E6y : m6 (vec_y + Z.of_nat i)
                = to_int32 (to_int32 (3 * m5 (vec_x + Z.of_nat i)) + m5 (vec_y + Z.of_nat i))).
  { unfold m6, ara_vector_saxpy.
    rewrite (ara_loop_spec VLMAX 3 Hv VEC_LEN vec_x vec_y VEC_LEN m5 (Nat.le_refl _) Dxy).
    cmp_cases. replace (vec_y + Z.of_nat i - vec_y) with (Z.of_nat i) by ring. reflexivity. }
  assert (E6r : m6 (vec_ref + Z.of_nat i) = m5 (vec_ref + Z.of_nat i)).
  { unfold m6, ara_vector_saxpy.
    rewrite (ara_loop_spec VLMAX 3 Hv VEC_LEN vec_x vec_y VEC_LEN m5 (Nat.le_refl _) Dxy).
    cmp_cases. }
  assert (E5y : m5 (vec_y + Z.of_nat i) = m2 (vec_y + Z.of_nat i)).
  { unfold m5, m2. rewrite !init_vector_int32_cell by exact Hi. reflexivity. }
  assert (E5x : m5 (vec_x + Z.of_nat i) = m4 (vec_x + Z.of_nat i)).
  { unfold m5. apply init_vector_int32_frame. lia. }
  assert (E5r : m5 (vec_ref + Z.of_nat i) = m4 (vec_ref + Z.of_nat i)).
  { unfold m5. apply init_vector_int32_frame. lia. }
  assert (E4x : m4 (vec_x + Z.of_nat i) = m3 (vec_x + Z.of_nat i)).
  { unfold m4, scalar_saxpy. rewrite (scalar_saxpy_loop_spec 3 vec_x vec_ref VEC_LEN 0 m3 Dxr).
    cmp_cases. }
  assert (E4r : m4 (vec_ref + Z.of_nat i)
                = to_int32 (to_int32 (3 * m3 (vec_x + Z.of_nat i)) + m3 (vec_ref + Z.of_nat i))).
  { unfold m4, scalar_saxpy. rewrite (scalar_saxpy_loop_spec 3 vec_x vec_ref VEC_LEN 0 m3 Dxr).
    cmp_cases. replace (vec_ref + Z.of_nat i - vec_ref) with (Z.of_nat i) by ring.
    reflexivity. }
  assert (E3x : m3 (vec_x + Z.of_nat i) = m2 (vec_x + Z.of_nat i)).
  { unfold m3. rewrite (copy_loop_spec vec_ref vec_y VEC_LEN m2 Dyr). cmp_cases. }
  assert (E3r : m3 (vec_ref + Z.of_nat i) = m2 (vec_y + Z.of_nat i)).
  { unfold m3. rewrite (copy_loop_spec vec_ref vec_y VEC_LEN m2 Dyr). cmp_cases.
    replace (vec_ref + Z.of_nat i - vec_ref) with (Z.of_nat i) by ring. reflexivity. }
  rewrite E6y, E6r, E5y, E5x, E5r, E4x, E4r, E3x, E3r. reflexivity.
Qed.

(** X8: with the file's own vector kernel [ara_vector_saxpy] (for any
    vector length [VLMAX > 0]) the SAXPY check of [test_ara_performance]
    finds no mismatch from any starting store, so the phase returns 0
    with [errors = 0], and [main] of [ara_gemmini_scalar_compare.c]
    exits with 0 whatever the Gemmini unit and the cycle counts are. *)
Theorem ara_kernel_passes_check (VLMAX DIM : nat) (hw : gemmini_hw)
    (c : comparison_cycles) (m : mem) (s : gstate) :
  (0 < VLMAX)%nat ->
  ret (test_ara_performance (ara_vector_saxpy VLMAX) m s) = 0 /\
  errors (test_ara_performance (ara_vector_saxpy VLMAX) m s) = 0 /\
  main_scalar_compare DIM (ara_vector_saxpy VLMAX) hw c m s = 0.
Proof.
  intros Hv.
  assert (Hph : forall m' s', ret (test_ara_performance (ara_vector_saxpy VLMAX) m' s') = 0 /\
                errors (test_ara_performance (ara_vector_saxpy VLMAX) m' s') = 0).
  { intros m' s'. unfold test_ara_performance. cbv zeta.
    match goal with |- context [verify_vec (fun i => ?M (vec_y + _)) _ _ _ _] =>
      set (mf := M) end.
    assert (Hz : fst (verify_vec (fun i => mf (vec_y + Z.of_nat i))
                        (fun i => mf (vec_ref + Z.of_nat i)) VEC_LEN 0 (0, [])) = 0).
    { apply verify_vec_zero; [lia|]. split; [reflexivity|].
      intros k Hk. apply (ara_phase_vectors_agree VLMAX m' Hv k). lia. }
    destruct (verify_vec _ _ _ _ _) as [errs out]. cbn [fst] in Hz. subst errs.
    split; reflexivity. }
  split; [apply Hph|]. split; [apply Hph|].
  rewrite main_scalar_compare_ret_ara. apply Hph.
Qed.

Lemma ara_kernel_passes_check_witness :
  main_scalar_compare 16 (ara_vector_saxpy 8) (fun _ _ _ _ => 0) (mk_cycles 100 10 200 20)
    static_mem static_gstate = 0.
Proof.
  exact (proj2 (proj2 (ara_kernel_passes_check 8 16 (fun _ _ _ _ => 0)
                         (mk_cycles 100 10 200 20) static_mem static_gstate ltac:(lia)))).
Defined.

(** * [enable_vector_extension] *)

(** X9: [enable_vector_extension] turns on bit 9 of a 64-bit [mstatus] and
    keeps every other bit: the VS field (bits 10:9) becomes
    [VS lor 1], i.e. Off becomes Initial, Initial stays, Clean and Dirty
    both become Dirty; the result is still a 64-bit value. *)
Theorem enable_vector_extension_bits (ms : Z) :
  0 <= ms < 2 ^ 64 ->
  0 <= enable_vector_extension ms < 2 ^ 64 /\
  Z.testbit (enable_vector_extension ms) 9 = true /\
  (forall b, b <> 9 -> Z.testbit (enable_vector_extension ms) b = Z.testbit ms b) /\
  mstatus_VS (enable_vector_extension ms) = Z.lor (mstatus_VS ms) 1.
Proof.
  intros Hms. unfold enable_vector_extension.
  change (Z.shiftl 1 9) with (2 ^ 9).
  assert (Hbit : forall b, Z.testbit (Z.lor ms (2 ^ 9)) b = Z.testbit ms b || (9 =? b)).
  { intros b. rewrite Z.lor_spec, Z.pow2_bits_eqb by lia. reflexivity. }
  split; [|split; [|split]].
  - split; [apply Z.lor_nonneg; lia|].
    assert (Hpos : 0 < Z.lor ms (2 ^ 9)).
    { assert (0 <= Z.lor ms (2 ^ 9)) by (apply Z.lor_nonneg; lia).
      destruct (Z.eq_dec (Z.lor ms (2 ^ 9)) 0) as [Heq|]; [|lia].
      apply Z.lor_eq_0_iff in Heq. lia. }
    apply Z.log2_lt_pow2; [exact Hpos|].
    rewrite Z.log2_lor by lia. apply Z.max_lub_lt; [|cbn; lia].
    destruct (Z.eq_dec ms 0) as [->|Hne]; [cbn; lia|].
    apply Z.log2_lt_pow2; lia.
  - rewrite Hbit. apply orb_true_r.
  - intros b Hb. rewrite Hbit. destruct (Z.eqb_spec 9 b); [lia|]. apply orb_false_r.
  - unfold mstatus_VS. apply Z.bits_inj'. intros n Hn.
    rewrite Z.lor_spec, !Z.land_spec, !Z.shiftr_spec, !Hbit by lia.
    destruct (Z.eq_dec n 0) as [->|H0]; [destruct (Z.testbit ms (0 + 9)); reflexivity|].
    destruct (Z.eq_dec n 1) as [->|H1]; [destruct (Z.testbit ms (1 + 9)); reflexivity|].
    assert (H3 : Z.testbit 3 n = false) by (apply Z.bits_above_log2; cbn; lia).
    assert (H1' : Z.testbit 1 n = false) by (apply Z.bits_above_log2; cbn; lia).
    rewrite H3, H1', !andb_false_r. reflexivity.
Qed.

Lemma enable_vector_extension_bits_witness :
  (0 <= 0 < 2 ^ 64) /\ mstatus_VS (enable_vector_extension 0) = 1.
Proof.
  split; [lia|].
  rewrite (proj2 (proj2 (proj2 (enable_vector_extension_bits 0 ltac:(lia))))).
  reflexivity.
Defined.

(** * Metrics *)

(** X10: the ops-per-cycle metric [(2ULL * N * N * N * 1000) / cycles] of
    [test_scalar_matmul] and [test_gemmini_matmul] has no guard: with
    [cycles = 0] it divides by zero; otherwise, for any dimension
    [0 <= N <= 65536], the [uint64_t] products do not wrap and the value is
    [2 * N^3 * 1000 / cycles]. *)
Theorem ops_x1000_value (N cycles : Z) :
  0 <= N <= 65536 ->
  (cycles = 0 -> ops_x1000 N cycles = DivByZero) /\
  (cycles <> 0 -> ops_x1000 N cycles = Quot (2 * N * N * N * 1000 / cycles)).
Proof.
  intros HN. unfold ops_x1000, udiv64, to_size.
  assert (H1 : 0 <= N * N <= 65536 * 65536) by nia.
  assert (H2 : 0 <= N * N * N <= 65536 * 65536 * 65536) by nia.
  rewrite (Z.mod_small (2 * N)) by lia.
  rewrite (Z.mod_small (2 * N * N)) by lia.
  rewrite (Z.mod_small (2 * N * N * N)) by lia.
  rewrite (Z.mod_small (2 * N * N * N * 1000)) by lia.
  split; intros Hc.
  - subst cycles. reflexivity.
  - destruct (Z.eqb_spec cycles 0); [contradiction|reflexivity].
Qed.

Lemma ops_x1000_value_witness :
  ops_x1000 16 123 = Quot (2 * 16 * 16 * 16 * 1000 / 123) /\ ops_x1000 16 0 = DivByZero.
Proof.
  destruct (ops_x1000_value 16 123 ltac:(lia)) as [_ H1].
  destruct (ops_x1000_value 16 0 ltac:(lia)) as [H0 _].
  split; [apply H1; lia | apply H0; reflexivity].
Defined.

(** X11: the SAXPY speedup [test_comparison] prints as [%llu.%llux] is the
    cycle ratio truncated to one decimal: with [ara_saxpy_cycles > 0] and
    no wrap in [scalar_saxpy_cycles * 10], the integer part is
    [s / a], the digit is [(s * 10 / a) mod 10], and together they give
    [q * 10 + d = s * 10 / a]. *)
Theorem saxpy_speedup_one_decimal (s a c3 c4 : Z) :
  0 <= s -> 0 < a -> s * 10 < 2 ^ 64 ->
  exists q d,
    fst (comparison_speedups s a c3 c4) = (Quot q, Quot d) /\
    q = s / a /\ 0 <= d < 10 /\ q * 10 + d = s * 10 / a.
Proof.
  intros Hs Ha Hw. exists (s / a), ((s * 10 / a) mod 10).
  unfold comparison_speedups, udiv64, to_size. cbn [fst].
  rewrite (Z.mod_small (s * 10)) by lia.
  destruct (Z.eqb_spec a 0); [lia|].
  split; [reflexivity|]. split; [reflexivity|]. split; [apply Z.mod_pos_bound; lia|].
  assert (Hq : s * 10 / a / 10 = s / a).
  { rewrite Z.div_div by lia. rewrite Z.div_mul_cancel_r by lia. reflexivity. }
  assert (Hm := Z.div_mod (s * 10 / a) 10 ltac:(lia)).
  lia.
Qed.

Lemma saxpy_speedup_one_decimal_witness :
  fst (comparison_speedups 1234 100 0 0) = (Quot 12, Quot 3).
Proof.
  destruct (saxpy_speedup_one_decimal 1234 100 0 0 ltac:(lia) ltac:(lia) ltac:(lia))
    as (q & d & H & Hq & Hd & Hqd).
  rewrite H. change (1234 / 100) with 12 in Hq. change (1234 * 10 / 100) with 123 in Hqd.
  subst q. f_equal; f_equal; lia.
Defined.
